(** * Round-bounded tool-calling engine of [backend/ai_generator.py]

    A shallow embedding of [AIGenerator] and [ConversationState].  The two
    external collaborators, the Anthropic client ([client.messages.create])
    and the tool manager ([tool_manager.execute_tool]), are deterministic
    oracles that see the whole interaction so far; every call made to them is
    recorded, with its outcome, in a trace.  Python exceptions are an explicit
    outcome, the mutable [ConversationState] is passed and returned.  A
    request is recorded with the message log as it is when the call is made
    (the source passes [state.messages] itself, which later rounds extend). *)

From Stdlib Require Import ZArith List String Ascii Bool Lia.
Import ListNotations.
Local Open Scope Z_scope.
Local Open Scope string_scope.
Local Open Scope list_scope.

(** ** Python values and exceptions *)

(** Only the [Exception] hierarchy is modelled (what [except Exception]
    catches); [exn_str] is [str(e)]. *)
Record PyExn := mkExn { exn_type : string; exn_str : string }.

Definition IndexError : PyExn :=
  mkExn "IndexError" "list index out of range".

Definition AttributeError (msg : string) : PyExn :=
  mkExn "AttributeError" msg.

(** Values of the keyword arguments a tool-use block carries. *)
Inductive PyVal :=
| PyNone
| PyBool (b : bool)
| PyInt (z : Z)
| PyStr (s : string).

Definition kwargs := list (string * PyVal).

(** ** Messages, requests and responses *)

(** A block of [response.content]: [content_block.type] is ["text"] for the
    first constructor and ["tool_use"] for the second. *)
Inductive ContentBlock :=
| TextBlock (text : string)
| ToolUseBlock (id : string) (name : string) (input : kwargs).

(** The dict [{"type": "tool_result", "tool_use_id": .., "content": ..}];
    [is_error] is [None] when the key is absent. *)
Record ToolResult := mkToolResult {
  tool_use_id : string;
  result_content : string;
  is_error : option bool
}.

Inductive Role := user | assistant.

Inductive MessageContent :=
| ContentStr (s : string)
| ContentBlocks (blocks : list ContentBlock)
| ContentResults (results : list ToolResult).

Record Message := mkMessage { role : Role; content : MessageContent }.

Record ToolDefinition := mkToolDefinition {
  tool_name : string;
  tool_description : string;
  input_schema : list (string * string)
}.

(** [base_params]: the keys ["model"], ["temperature"], ["max_tokens"] and,
    once a query has started, ["system"]. *)
Record BaseParams := mkBaseParams {
  param_model : string;
  param_temperature : Z;
  param_max_tokens : Z;
  param_system : option string
}.

(** The keyword arguments of one [client.messages.create] call;
    [param_tool_choice = Some "auto"] is [{"type": "auto"}]. *)
Record ApiParams := mkApiParams {
  param_base : BaseParams;
  param_messages : list Message;
  param_tools : option (list ToolDefinition);
  param_tool_choice : option string
}.

Record Response := mkResponse {
  stop_reason : string;
  response_content : list ContentBlock
}.

Inductive LLMOutcome :=
| LLMResponse (r : Response)
| LLMRaise (e : PyExn).

Inductive ToolOutcome :=
| ToolOk (result : string)
| ToolRaise (e : PyExn).

(** ** The trace of external calls *)

(** Which [client.messages.create] of the source a request comes from:
    the call of a round (line 152), the call after the tools of a round
    (line 171), the call after the loop (line 126). *)
Inductive CallSite := RoundCall | RoundFinalCall | FallbackCall.

(** An event carries the [round_count] at which it happened. *)
Inductive Event :=
| EvCreate (site : CallSite) (rc : Z) (params : ApiParams) (out : LLMOutcome)
| EvExecuteTool (rc : Z) (name : string) (input : kwargs) (out : ToolOutcome).

Definition Trace := list Event.

Definition Client := Trace -> ApiParams -> LLMOutcome.
Definition ToolManager := Trace -> string -> kwargs -> ToolOutcome.

(** ** State of a query and of the generator *)

Record ConversationState := mkState {
  messages : list Message;
  system_prompt : string;
  round_count : Z;
  max_rounds : Z;
  tools : option (list ToolDefinition);
  tool_manager : option ToolManager;
  base_params : BaseParams
}.

Record AIGenerator := mkAIGenerator {
  self_client : Client;
  self_model : string;
  self_base_params : BaseParams
}.

(** [AIGenerator.__init__]. *)
Definition new_AIGenerator (client : Client) (model : string) : AIGenerator :=
  mkAIGenerator client model (mkBaseParams model 0 800 None).

Definition dquote : string := String (ascii_of_nat 34) EmptyString.

(** The class attribute [SYSTEM_PROMPT], as its UTF-8 bytes. *)
Definition SYSTEM_PROMPT : string :=
  (" You are an AI assistant specialized in course materials and educational content with access to comprehensive search tools for course information.

Available Tools:
- **search_course_content**: Search within course materials for specific content, concepts, or technical details
- **get_course_outline**: Get complete course outlines including title, course link, and all lessons with numbers and titles

Tool Usage Guidelines:
- Use search_course_content for questions about specific course content, educational materials, AND technical implementation details
- Use get_course_outline for questions about course structure, lesson lists, or complete course overviews
- **Multi-round tool usage**: You can make tool calls across up to 2 rounds to gather comprehensive information
- Use multiple tool calls to:
  - Gather complementary information from different tools
  - Search for specific details after getting general context
  - Cross-reference information from multiple sources
- Example: Search for course outline first, then search specific lessons for details
- Stop making tool calls when you have sufficient information to answer
- Synthesize tool results into accurate, fact-based responses
- If tools yield no results, state this clearly without offering alternatives

Response Protocol:
- **General knowledge questions**: Answer using existing knowledge without using tools
- **Course-specific content questions**: Use search_course_content first, then answer
- **Course outline/structure questions**: Use get_course_outline first, then answer
- **Technical implementation questions**: Use search_course_content for relevant documentation or code examples
- **No meta-commentary**:
 - Provide direct answers only — no reasoning process, tool explanations, or question-type analysis
 - Do not mention "
  ++ dquote ++ "based on the search results"
  ++ dquote ++ " or "
  ++ dquote ++ "using the outline tool"
  ++ dquote ++ "

For course outline responses, always include:
- Course title
- Course link (if available)
- Complete lesson list with numbers and titles

All responses must be:
1. **Brief, Concise and focused** - Get to the point quickly
2. **Educational** - Maintain instructional value
3. **Clear** - Use accessible language
4. **Example-supported** - Include relevant examples when they aid understanding
Provide only the direct answer to what was asked.
")%string.

(** ** Computations: outcome and trace *)

Inductive Outcome (A : Type) :=
| Ok (a : A)
| Raise (e : PyExn)
| OutOfFuel.

Arguments Ok {A} a.
Arguments Raise {A} e.
Arguments OutOfFuel {A}.

Definition M (A : Type) := Trace -> Outcome A * Trace.

Definition ret {A} (a : A) : M A := fun tr => (Ok a, tr).

Definition raise {A} (e : PyExn) : M A := fun tr => (Raise e, tr).

Definition bind {A B} (m : M A) (k : A -> M B) : M B :=
  fun tr =>
    match m tr with
    | (Ok a, tr') => k a tr'
    | (Raise e, tr') => (Raise e, tr')
    | (OutOfFuel, tr') => (OutOfFuel, tr')
    end.

(** [try: m except Exception as e: h e]. *)
Definition try_except {A} (m : M A) (h : PyExn -> M A) : M A :=
  fun tr =>
    match m tr with
    | (Raise e, tr') => h e tr'
    | r => r
    end.

Declare Scope py_scope.
Delimit Scope py_scope with py.
Notation "x <- m ;; k" := (bind m (fun x => k))
  (at level 100, m at next level, right associativity) : py_scope.
Local Open Scope py_scope.

Definition run {A} (m : M A) : Outcome A * Trace := m [].

(** A call of [self.client.messages.create] with keyword arguments
    [params]. *)
Definition messages_create (self : AIGenerator) (site : CallSite) (rc : Z)
    (params : ApiParams) : M Response :=
  fun tr =>
    let out := self_client self tr params in
    let tr' := tr ++ [EvCreate site rc params out] in
    match out with
    | LLMResponse r => (Ok r, tr')
    | LLMRaise e => (Raise e, tr')
    end.

(** [tool_manager.execute_tool(name, **input)]; on [None] the attribute
    lookup fails before any call is made. *)
Definition execute_tool (tm : option ToolManager) (rc : Z) (name : string)
    (input : kwargs) : M string :=
  match tm with
  | None =>
      raise (AttributeError "'NoneType' object has no attribute 'execute_tool'")
  | Some f =>
      fun tr =>
        let out := f tr name input in
        let tr' := tr ++ [EvExecuteTool rc name input out] in
        match out with
        | ToolOk s => (Ok s, tr')
        | ToolRaise e => (Raise e, tr')
        end
  end.

(** [response.content[0].text]: an empty [content] has no first block, a
    tool-use block has no [text]. *)
Definition first_text (r : Response) : Outcome string :=
  match response_content r with
  | [] => Raise IndexError
  | TextBlock t :: _ => Ok t
  | ToolUseBlock _ _ _ :: _ =>
      Raise (AttributeError "'ToolUseBlock' object has no attribute 'text'")
  end.

Definition content0_text (r : Response) : M string :=
  fun tr => (first_text r, tr).

(** ** Truth values of the optional arguments *)

Definition truthy_str (s : option string) : bool :=
  match s with
  | None => false
  | Some EmptyString => false
  | Some _ => true
  end.

Definition truthy_list {A} (l : option (list A)) : bool :=
  match l with
  | None => false
  | Some [] => false
  | Some _ => true
  end.

(** A tool manager is an object without [__bool__] or [__len__]:
    anything but [None] is true. *)
Definition truthy_obj {A} (o : option A) : bool :=
  match o with
  | None => false
  | Some _ => true
  end.

Definition nonempty {A} (l : list A) : bool :=
  match l with
  | [] => false
  | _ => true
  end.

(** ** The methods of [AIGenerator] *)

Definition set_messages (st : ConversationState) (ms : list Message)
    : ConversationState :=
  mkState ms (system_prompt st) (round_count st) (max_rounds st) (tools st)
    (tool_manager st) (base_params st).

Definition set_round_count (st : ConversationState) (rc : Z)
    : ConversationState :=
  mkState (messages st) (system_prompt st) rc (max_rounds st) (tools st)
    (tool_manager st) (base_params st).

Definition error_result (id : string) (e : PyExn) : ToolResult :=
  mkToolResult id ("Tool execution failed: " ++ exn_str e)%string (Some true).

Definition ok_result (id : string) (out : string) : ToolResult :=
  mkToolResult id out None.

(** The [for content_block in response.content] loop of
    [_execute_tools_and_update_state] (lines 194-216): the flag is [false]
    when the loop is left by [return False]; the list is the local
    [tool_results] at that point. *)
Fixpoint execute_tool_blocks (tm : option ToolManager) (rc : Z)
    (blocks : list ContentBlock) (tool_results : list ToolResult)
    : M (bool * list ToolResult) :=
  match blocks with
  | [] => ret (true, tool_results)
  | TextBlock _ :: rest => execute_tool_blocks tm rc rest tool_results
  | ToolUseBlock id name input :: rest =>
      r <- try_except
             (tool_result <- execute_tool tm rc name input ;;
              ret (true, tool_results ++ [ok_result id tool_result]))
             (fun e => ret (false, tool_results ++ [error_result id e])) ;;
      if fst r then execute_tool_blocks tm rc rest (snd r) else ret r
  end.

Definition _execute_tools_and_update_state (response : Response)
    (state : ConversationState) : M (bool * ConversationState) :=
  let state :=
    set_messages state
      (messages state
       ++ [mkMessage assistant (ContentBlocks (response_content response))]) in
  r <- execute_tool_blocks (tool_manager state) (round_count state)
         (response_content response) [] ;;
  if fst r then
    if nonempty (snd r) then
      ret (true,
           set_messages state
             (messages state ++ [mkMessage user (ContentResults (snd r))]))
    else ret (true, state)
  else ret (false, state).

Definition _should_continue_rounds (state : ConversationState)
    : bool * option string :=
  if (round_count state >=? max_rounds state - 1)%Z then
    (false, Some "max_rounds_reached")
  else if negb (truthy_list (tools state))
          || negb (truthy_obj (tool_manager state)) then
    (false, Some "no_tools_available")
  else (true, None).

(** The request of a round (lines 140-148). *)
Definition round_params (state : ConversationState) : ApiParams :=
  if truthy_list (tools state) && truthy_obj (tool_manager state) then
    mkApiParams (base_params state) (messages state) (tools state)
      (Some "auto")
  else mkApiParams (base_params state) (messages state) None None.

(** The request without tools (lines 122-125 and 167-170). *)
Definition final_params (state : ConversationState) : ApiParams :=
  mkApiParams (base_params state) (messages state) None None.

Definition RoundResult : Type :=
  string * bool * option string * ConversationState.

Definition _execute_single_round (self : AIGenerator)
    (state : ConversationState) : M RoundResult :=
  let api_params := round_params state in
  r <- try_except
         (response <- messages_create self RoundCall (round_count state)
                        api_params ;;
          ret (inl response))
         (fun e => ret (inr e)) ;;
  match r with
  | inr e =>
      ret (("Error generating response: " ++ exn_str e)%string, false,
           Some "api_error", state)
  | inl response =>
      if (stop_reason response =? "tool_use")%string
         && truthy_obj (tool_manager state) then
        ts <- _execute_tools_and_update_state response state ;;
        let state := snd ts in
        if negb (fst ts) then
          ret ("Tool execution failed", false, Some "tool_error", state)
        else
          let sc := _should_continue_rounds state in
          if negb (fst sc) then
            final_response <- messages_create self RoundFinalCall
                                (round_count state) (final_params state) ;;
            text <- content0_text final_response ;;
            ret (text, false, snd sc, state)
          else ret (EmptyString, true, None, state)
      else
        text <- content0_text response ;;
        ret (text, false, Some "no_tool_use", state)
  end.

(** How the [while] loop of [generate_response_with_rounds] is left. *)
Inductive LoopExit :=
| Returned (response : string)
| Exhausted (state : ConversationState).

(** The [while state.round_count < state.max_rounds] loop (lines 113-119);
    [fuel] bounds the number of iterations. *)
Fixpoint rounds_loop (fuel : nat) (self : AIGenerator)
    (state : ConversationState) : M LoopExit :=
  if (round_count state <? max_rounds state)%Z then
    match fuel with
    | O => fun tr => (OutOfFuel, tr)
    | S fuel' =>
        r <- _execute_single_round self state ;;
        match r with
        | (response, should_continue, _, state) =>
            if negb should_continue then ret (Returned response)
            else
              rounds_loop fuel' self
                (set_round_count state (round_count state + 1))
        end
    end
  else ret (Exhausted state).

Definition system_content (conversation_history : option string) : string :=
  match conversation_history with
  | Some h =>
      if truthy_str conversation_history then
        (SYSTEM_PROMPT ++ "

Previous conversation:
" ++ h)%string
      else SYSTEM_PROMPT
  | None => SYSTEM_PROMPT
  end.

Definition with_system (bp : BaseParams) (s : string) : BaseParams :=
  mkBaseParams (param_model bp) (param_temperature bp) (param_max_tokens bp)
    (Some s).

Definition initial_state (self : AIGenerator) (query : string)
    (conversation_history : option string)
    (tools : option (list ToolDefinition)) (tool_manager : option ToolManager)
    (max_rounds : Z) : ConversationState :=
  let system_content := system_content conversation_history in
  mkState [mkMessage user (ContentStr query)] system_content 0 max_rounds
    tools tool_manager (with_system (self_base_params self) system_content).

Definition generate_response_with_rounds_fuel (fuel : nat)
    (self : AIGenerator) (query : string)
    (conversation_history : option string)
    (tools : option (list ToolDefinition)) (tool_manager : option ToolManager)
    (max_rounds : Z) : M string :=
  let state :=
    initial_state self query conversation_history tools tool_manager
      max_rounds in
  exit <- rounds_loop fuel self state ;;
  match exit with
  | Returned response => ret response
  | Exhausted state =>
      final_response <- messages_create self FallbackCall (round_count state)
                          (final_params state) ;;
      content0_text final_response
  end.

(** The loop runs at most [max_rounds] times: that much fuel is given. *)
Definition generate_response_with_rounds (self : AIGenerator)
    (query : string) (conversation_history : option string)
    (tools : option (list ToolDefinition)) (tool_manager : option ToolManager)
    (max_rounds : Z) : M string :=
  generate_response_with_rounds_fuel (Z.to_nat max_rounds) self query
    conversation_history tools tool_manager max_rounds.

Definition generate_response (self : AIGenerator) (query : string)
    (conversation_history : option string)
    (tools : option (list ToolDefinition)) (tool_manager : option ToolManager)
    : M string :=
  generate_response_with_rounds self query conversation_history tools
    tool_manager 2.

(** ** Observations on traces *)

Definition is_create (ev : Event) : bool :=
  match ev with
  | EvCreate _ _ _ _ => true
  | EvExecuteTool _ _ _ _ => false
  end.

Definition is_dispatch (ev : Event) : bool := negb (is_create ev).

Definition is_tool_raise (ev : Event) : bool :=
  match ev with
  | EvExecuteTool _ _ _ (ToolRaise _) => true
  | _ => false
  end.

Definition ev_round (ev : Event) : Z :=
  match ev with
  | EvCreate _ rc _ _ => rc
  | EvExecuteTool rc _ _ _ => rc
  end.

(** The call sites of the LLM requests of a trace, in order. *)
Fixpoint create_sites (tr : Trace) : list CallSite :=
  match tr with
  | [] => []
  | EvCreate site _ _ _ :: tr' => site :: create_sites tr'
  | EvExecuteTool _ _ _ _ :: tr' => create_sites tr'
  end.

(** The requests sent to the LLM, in order. *)
Fixpoint create_params (tr : Trace) : list ApiParams :=
  match tr with
  | [] => []
  | EvCreate _ _ p _ :: tr' => p :: create_params tr'
  | EvExecuteTool _ _ _ _ :: tr' => create_params tr'
  end.

Definition llm_calls (tr : Trace) : nat := List.length (create_sites tr).

Definition tool_calls (tr : Trace) : nat :=
  List.length (filter is_dispatch tr).

(** A client and a tool manager that answer from a script, by the number of
    calls already made (the [side_effect] lists of the test suite). *)
Definition scripted_client (script : list LLMOutcome) (default : LLMOutcome)
    : Client :=
  fun tr _ => nth (llm_calls tr) script default.

Definition scripted_tools (script : list ToolOutcome) (default : ToolOutcome)
    : ToolManager :=
  fun tr _ _ => nth (tool_calls tr) script default.

(** ** Inputs of the test suite

    The responses, tools and tool manager of [test_max_rounds_termination]
    and [test_tool_execution_failure_in_round]. *)

Definition tool_use_response_1 : Response :=
  mkResponse "tool_use"
    [ToolUseBlock "tool_1" "search_course_content"
       [("query", PyStr "first search")]].

Definition tool_use_response_2 : Response :=
  mkResponse "tool_use"
    [ToolUseBlock "tool_2" "get_course_outline"
       [("course_name", PyStr "test")]].

Definition end_turn_response : Response :=
  mkResponse "end_turn" [TextBlock "Final response after 2 rounds"].

Definition example_tools : option (list ToolDefinition) :=
  Some [mkToolDefinition "search_course_content" "Search tool" [];
        mkToolDefinition "get_course_outline" "Outline tool" []].

Definition example_generator : AIGenerator :=
  new_AIGenerator
    (scripted_client
       [LLMResponse tool_use_response_1; LLMResponse tool_use_response_2;
        LLMResponse end_turn_response]
       (LLMRaise (mkExn "APIError" "overloaded")))
    "claude-sonnet-4-20250514".

Definition example_tool_manager : option ToolManager :=
  Some (scripted_tools [ToolOk "Result 1"; ToolOk "Result 2"]
          (ToolRaise (mkExn "Exception" "Tool failed"))).

Definition failing_tool_manager : option ToolManager :=
  Some (scripted_tools [ToolOk "Result 1"]
          (ToolRaise (mkExn "Exception" "Tool failed"))).

(** The response and client of [test_early_termination_no_tool_use]. *)
Definition direct_response : Response :=
  mkResponse "end_turn" [TextBlock "Direct answer without tools"].

Definition direct_generator : AIGenerator :=
  new_AIGenerator (scripted_client [] (LLMResponse direct_response))
    "claude-sonnet-4-20250514".


(** The tool manager of [test_tool_execution_failure_in_round]. *)
Definition always_failing_tool_manager : option ToolManager :=
  Some (scripted_tools [] (ToolRaise (mkExn "Exception" "Tool failed"))).

(** A client that answers from [script] and then fails. *)
Definition overloaded_generator (script : list LLMOutcome) : AIGenerator :=
  new_AIGenerator
    (scripted_client script (LLMRaise (mkExn "APIError" "overloaded")))
    "claude-sonnet-4-20250514".

(** ** The shape of the tool loop *)

Definition ToolUse : Type := string * string * kwargs.

(** The tool-use blocks of a response content, in order. *)
Fixpoint tool_uses (blocks : list ContentBlock) : list ToolUse :=
  match blocks with
  | [] => []
  | TextBlock _ :: rest => tool_uses rest
  | ToolUseBlock id name input :: rest => (id, name, input) :: tool_uses rest
  end.

Definition ok_event (rc : Z) (uo : ToolUse * string) : Event :=
  match uo with
  | ((_, name, input), out) => EvExecuteTool rc name input (ToolOk out)
  end.

Definition ok_block (uo : ToolUse * string) : ToolResult :=
  match uo with
  | ((id, _, _), out) => ok_result id out
  end.

(** What a run of the tool loop over the tool uses [uses] looks like: the
    flag, the result blocks added to [tool_results], the events. *)
Inductive ToolsShape (rc : Z) (uses : list ToolUse)
    : bool -> list ToolResult -> Trace -> Prop :=
| TS_ok outs :
    List.length outs = List.length uses ->
    ToolsShape rc uses true
      (map ok_block (combine uses outs))
      (map (ok_event rc) (combine uses outs))
| TS_fail done id name input rest outs e :
    uses = done ++ (id, name, input) :: rest ->
    List.length outs = List.length done ->
    ToolsShape rc uses false
      (map ok_block (combine done outs) ++ [error_result id e])
      (map (ok_event rc) (combine done outs)
       ++ [EvExecuteTool rc name input (ToolRaise e)]).

(** ** The shape of a round *)

Definition add_assistant (st : ConversationState) (r : Response)
    : ConversationState :=
  set_messages st
    (messages st ++ [mkMessage assistant (ContentBlocks (response_content r))]).

Definition add_results (st : ConversationState) (res : list ToolResult)
    : ConversationState :=
  if nonempty res then
    set_messages st (messages st ++ [mkMessage user (ContentResults res)])
  else st.

Definition outcome_map {A B} (f : A -> B) (o : Outcome A) : Outcome B :=
  match o with
  | Ok a => Ok (f a)
  | Raise e => Raise e
  | OutOfFuel => OutOfFuel
  end.

(** The text a no-tools call yields, or the exception it ends in. *)
Definition llm_text (fo : LLMOutcome) : Outcome string :=
  match fo with
  | LLMResponse r => first_text r
  | LLMRaise e => Raise e
  end.

(** The five ways through [_execute_single_round], with the events of each. *)
Inductive RoundShape (st : ConversationState)
    : Outcome RoundResult -> Trace -> Prop :=
| RS_api_error e :
    RoundShape st
      (Ok (("Error generating response: " ++ exn_str e)%string, false,
           Some "api_error", st))
      [EvCreate RoundCall (round_count st) (round_params st) (LLMRaise e)]
| RS_no_tool_use r :
    (stop_reason r =? "tool_use")%string && truthy_obj (tool_manager st)
    = false ->
    RoundShape st
      (outcome_map (fun t => (t, false, Some "no_tool_use", st))
         (first_text r))
      [EvCreate RoundCall (round_count st) (round_params st) (LLMResponse r)]
| RS_tool_error r res delta :
    stop_reason r = "tool_use" ->
    truthy_obj (tool_manager st) = true ->
    ToolsShape (round_count st) (tool_uses (response_content r)) false res
      delta ->
    RoundShape st
      (Ok ("Tool execution failed", false, Some "tool_error",
           add_assistant st r))
      (EvCreate RoundCall (round_count st) (round_params st) (LLMResponse r)
       :: delta)
| RS_final r res delta fo :
    stop_reason r = "tool_use" ->
    truthy_obj (tool_manager st) = true ->
    ToolsShape (round_count st) (tool_uses (response_content r)) true res
      delta ->
    fst (_should_continue_rounds st) = false ->
    RoundShape st
      (outcome_map
         (fun t => (t, false, snd (_should_continue_rounds st),
                    add_results (add_assistant st r) res))
         (llm_text fo))
      (EvCreate RoundCall (round_count st) (round_params st) (LLMResponse r)
       :: delta
       ++ [EvCreate RoundFinalCall (round_count st)
             (final_params (add_results (add_assistant st r) res)) fo])
| RS_continue r res delta :
    stop_reason r = "tool_use" ->
    truthy_obj (tool_manager st) = true ->
    ToolsShape (round_count st) (tool_uses (response_content r)) true res
      delta ->
    fst (_should_continue_rounds st) = true ->
    RoundShape st
      (Ok (EmptyString, true, None, add_results (add_assistant st r) res))
      (EvCreate RoundCall (round_count st) (round_params st) (LLMResponse r)
       :: delta).

(** What a round leaves untouched in the state. *)
Definition same_config (st st' : ConversationState) : Prop :=
  round_count st' = round_count st
  /\ max_rounds st' = max_rounds st
  /\ tools st' = tools st
  /\ tool_manager st' = tool_manager st
  /\ base_params st' = base_params st
  /\ system_prompt st' = system_prompt st.

(** ** The shape of the round loop and of a query *)

Inductive LoopShape
    : ConversationState -> Outcome LoopExit -> Trace -> Prop :=
| LS_exhausted st :
    max_rounds st <= round_count st ->
    LoopShape st (Ok (Exhausted st)) []
| LS_return st response reason st' delta :
    round_count st < max_rounds st ->
    RoundShape st (Ok (response, false, reason, st')) delta ->
    LoopShape st (Ok (Returned response)) delta
| LS_raise st e delta :
    round_count st < max_rounds st ->
    RoundShape st (Raise e) delta ->
    LoopShape st (Raise e) delta
| LS_continue st response reason st' delta o delta' :
    round_count st < max_rounds st ->
    RoundShape st (Ok (response, true, reason, st')) delta ->
    LoopShape (set_round_count st' (round_count st' + 1)) o delta' ->
    LoopShape st o (delta ++ delta').

(** A whole query: the loop, then the fallback call when the loop is left
    through its condition. *)
Inductive QueryShape (st0 : ConversationState)
    : Outcome string -> Trace -> Prop :=
| QS_returned response delta :
    LoopShape st0 (Ok (Returned response)) delta ->
    QueryShape st0 (Ok response) delta
| QS_raised e delta :
    LoopShape st0 (Raise e) delta ->
    QueryShape st0 (Raise e) delta
| QS_fallback st delta fo :
    LoopShape st0 (Ok (Exhausted st)) delta ->
    QueryShape st0 (llm_text fo)
      (delta ++ [EvCreate FallbackCall (round_count st) (final_params st) fo]).

(** ** Predicates of the statements *)

(** The call after the loop still to come: [1] when the loop is left through
    its condition. *)
Definition fallback_due (o : Outcome LoopExit) : Z :=
  match o with
  | Ok (Exhausted _) => 1
  | _ => 0
  end.

(** The loop is left by [return] or by an exception, inside its body. *)
Definition exits_inside_body (o : Outcome LoopExit) : bool :=
  match o with
  | Ok (Returned _) => true
  | Raise _ => true
  | Ok (Exhausted _) => false
  | OutOfFuel => false
  end.

Definition no_tool_raise (tr : Trace) : Prop :=
  Forall (fun ev => is_tool_raise ev = false) tr.

Definition is_round_call (ev : Event) : bool :=
  match ev with
  | EvCreate RoundCall _ _ _ => true
  | _ => false
  end.

(** The messages a round with successful tool calls appends to the log:
    the assistant's tool-use message, then, when there is a result block,
    one user message with all of them. *)
Definition appended_messages (r : Response) (outs : list string)
    : list Message :=
  let results := map ok_block (combine (tool_uses (response_content r)) outs) in
  mkMessage assistant (ContentBlocks (response_content r))
  :: (if nonempty results then [mkMessage user (ContentResults results)]
      else []).


(** ** The single-round handler [_handle_tool_execution] *)

(** The [base_params] argument of [_handle_tool_execution], by the two keys
    the method reads; [None] is an absent key. *)
Record ParamsDict := mkParamsDict {
  dict_messages : option (list Message);
  dict_system : option string
}.

(** [KeyError(key)]; its [str] is the [repr] of the key. *)
Definition KeyError (key : string) : PyExn :=
  mkExn "KeyError" ("'" ++ key ++ "'")%string.

(** The dict a request was made from, as [_handle_tool_execution] reads it. *)
Definition params_dict_of (p : ApiParams) : ParamsDict :=
  mkParamsDict (Some (param_messages p)) (param_system (param_base p)).

(** The [for] loop of [_handle_tool_execution] (lines 290-302): no [try], an
    exception of a tool leaves the loop and the method. *)
Fixpoint handle_tool_blocks (tm : option ToolManager) (rc : Z)
    (blocks : list ContentBlock) (tool_results : list ToolResult)
    : M (list ToolResult) :=
  match blocks with
  | [] => ret tool_results
  | TextBlock _ :: rest => handle_tool_blocks tm rc rest tool_results
  | ToolUseBlock id name input :: rest =>
      tool_result <- execute_tool tm rc name input ;;
      handle_tool_blocks tm rc rest
        (tool_results ++ [ok_result id tool_result])
  end.

(** [_handle_tool_execution] (lines 271-317).  The method knows no round:
    [site] and [rc] are the labels its events are recorded under. *)
Definition _handle_tool_execution (self : AIGenerator) (site : CallSite)
    (rc : Z) (initial_response : Response) (base_params : ParamsDict)
    (tool_manager : option ToolManager) : M string :=
  match dict_messages base_params with
  | None => raise (KeyError "messages")
  | Some ms =>
      let messages :=
        ms ++ [mkMessage assistant
                 (ContentBlocks (response_content initial_response))] in
      tool_results <- handle_tool_blocks tool_manager rc
                        (response_content initial_response) [] ;;
      let messages :=
        if nonempty tool_results then
          messages ++ [mkMessage user (ContentResults tool_results)]
        else messages in
      match dict_system base_params with
      | None => raise (KeyError "system")
      | Some sys =>
          final_response <- messages_create self site rc
                              (mkApiParams
                                 (with_system (self_base_params self) sys)
                                 messages None None) ;;
          content0_text final_response
      end
  end.

(** ** Further observations on traces *)

(** What the last external call of a query makes of its outcome. *)
Definition outcome_of_last (ev : Event) : option (Outcome string) :=
  match ev with
  | EvCreate RoundCall _ _ (LLMRaise e) =>
      Some (Ok ("Error generating response: " ++ exn_str e)%string)
  | EvCreate RoundCall _ _ (LLMResponse r) => Some (first_text r)
  | EvCreate _ _ _ fo => Some (llm_text fo)
  | EvExecuteTool _ _ _ (ToolRaise _) => Some (Ok "Tool execution failed")
  | EvExecuteTool _ _ _ (ToolOk _) => None
  end.

Definition is_round_raise (ev : Event) : bool :=
  match ev with
  | EvCreate RoundCall _ _ (LLMRaise _) => true
  | _ => false
  end.

(** The requests of a trace with their call sites, in order. *)
Fixpoint create_requests (tr : Trace) : list (CallSite * ApiParams) :=
  match tr with
  | [] => []
  | EvCreate site _ p _ :: tr' => (site, p) :: create_requests tr'
  | EvExecuteTool _ _ _ _ :: tr' => create_requests tr'
  end.

(** The [tools] and [tool_choice] a request made at [site] is to carry. *)
Definition expected_tools (tls : option (list ToolDefinition))
    (tm : option ToolManager) (site : CallSite)
    : option (list ToolDefinition) * option string :=
  match site with
  | RoundCall =>
      if truthy_list tls && truthy_obj tm then (tls, Some "auto")
      else (None, None)
  | _ => (None, None)
  end.

Definition carries_expected_tools (tls : option (list ToolDefinition))
    (tm : option ToolManager) (sp : CallSite * ApiParams) : Prop :=
  (param_tools (snd sp), param_tool_choice (snd sp))
  = expected_tools tls tm (fst sp).

(** Each request of [ps] carries a log that extends the log before it,
    starting from [ms]. *)
Fixpoint log_grows (ms : list Message) (ps : list ApiParams) : Prop :=
  match ps with
  | [] => True
  | p :: ps' =>
      (exists added, param_messages p = ms ++ added)
      /\ log_grows (param_messages p) ps'
  end.

(** * Proofs *)

(** Names the outcome and the trace of the run a [QueryShape] hypothesis
    speaks of. *)
Ltac name_run o tr :=
  match goal with
  | HQ : QueryShape _ (fst ?x) (snd ?x) |- _ =>
      let res := fresh "res" in
      let Hres := fresh "Hres" in
      remember x as res eqn:Hres; clear Hres;
      destruct res as [o tr]; cbn [fst snd] in *
  end.

(** ** Runs of the test suite *)

(** The embedding gives what the tests of the repository assert. *)
Lemma test_max_rounds_termination :
  let res :=
    run (generate_response example_generator
           "Complex query requiring multiple searches" None example_tools
           example_tool_manager) in
  fst res = Ok "Final response after 2 rounds"
  /\ tool_calls (snd res) = 2%nat
  /\ llm_calls (snd res) = 3%nat
  /\ create_sites (snd res) = [RoundCall; RoundCall; RoundFinalCall].
Proof. repeat split. Qed.

Lemma test_tool_execution_failure_in_round :
  let res :=
    run (generate_response
           (new_AIGenerator
              (scripted_client [] (LLMResponse tool_use_response_1))
              "claude-sonnet-4-20250514")
           "test query" None example_tools always_failing_tool_manager) in
  fst res = Ok "Tool execution failed"
  /\ llm_calls (snd res) = 1%nat
  /\ tool_calls (snd res) = 1%nat.
Proof. repeat split. Qed.

Lemma test_early_termination_no_tool_use :
  let res :=
    run (generate_response direct_generator "What is 2+2?" None example_tools
           example_tool_manager) in
  fst res = Ok "Direct answer without tools"
  /\ llm_calls (snd res) = 1%nat
  /\ tool_calls (snd res) = 0%nat.
Proof. repeat split. Qed.

(** ** The shapes cover the code *)

Lemma execute_tool_blocks_shape f rc blocks :
  forall acc tr0,
  exists ok res delta,
    execute_tool_blocks (Some f) rc blocks acc tr0
    = (Ok (ok, acc ++ res), tr0 ++ delta)
    /\ ToolsShape rc (tool_uses blocks) ok res delta.
Proof.
  induction blocks as [|b blocks IH]; intros acc tr0.
  - exists true, [], []. cbn. rewrite !app_nil_r. split; [reflexivity|].
    apply (@TS_ok rc [] []). reflexivity.
  - destruct b as [t | id name input]; cbn [execute_tool_blocks tool_uses].
    + apply IH.
    + unfold bind, try_except, execute_tool, ret.
      destruct (f tr0 name input) as [s | e] eqn:Hf; cbn [fst snd].
      * destruct (IH (acc ++ [ok_result id s])
                    (tr0 ++ [EvExecuteTool rc name input (ToolOk s)]))
          as (ok & res & delta & Hrun & Hshape).
        rewrite Hrun, <- !app_assoc. cbn [app].
        exists ok, (ok_result id s :: res),
          (EvExecuteTool rc name input (ToolOk s) :: delta).
        split; [reflexivity|].
        destruct Hshape as [outs Hlen | done id' name' input' rest outs e Huses Hlen].
        -- apply (@TS_ok rc ((id, name, input) :: tool_uses blocks) (s :: outs)).
           cbn. now rewrite Hlen.
        -- apply (@TS_fail rc _ ((id, name, input) :: done) id' name' input'
                    rest (s :: outs) e).
           ++ cbn. now rewrite Huses.
           ++ cbn. now rewrite Hlen.
      * exists false, [error_result id e],
          [EvExecuteTool rc name input (ToolRaise e)].
        split; [reflexivity|].
        apply (@TS_fail rc _ [] id name input (tool_uses blocks) [] e);
          reflexivity.
Qed.

Lemma should_continue_add_results st res :
  _should_continue_rounds (add_results st res) = _should_continue_rounds st.
Proof. unfold add_results. destruct (nonempty res); reflexivity. Qed.

Lemma round_count_add_results st res :
  round_count (add_results st res) = round_count st.
Proof. unfold add_results. destruct (nonempty res); reflexivity. Qed.

Lemma execute_tools_shape f (r : Response) st tr0 :
  tool_manager st = Some f ->
  exists (ok : bool) res delta,
    _execute_tools_and_update_state r st tr0
    = (Ok (ok, if ok then add_results (add_assistant st r) res
               else add_assistant st r),
       tr0 ++ delta)
    /\ ToolsShape (round_count st) (tool_uses (response_content r)) ok res
         delta.
Proof.
  intros Htm. unfold _execute_tools_and_update_state, bind.
  cbn [tool_manager round_count set_messages]. rewrite Htm.
  destruct (execute_tool_blocks_shape f (round_count st) (response_content r)
              [] tr0) as (ok & res & delta & Hrun & Hshape).
  rewrite Hrun. cbn [app fst snd].
  exists ok, res, delta. split; [|exact Hshape].
  destruct ok; [|reflexivity].
  unfold add_results, add_assistant. destruct (nonempty res); reflexivity.
Qed.

Lemma round_shape self st tr0 :
  exists o delta,
    _execute_single_round self st tr0 = (o, tr0 ++ delta)
    /\ RoundShape st o delta.
Proof.
  unfold _execute_single_round, bind at 1.
  unfold try_except, bind at 1. unfold messages_create.
  destruct (self_client self tr0 (round_params st)) as [r | e] eqn:Hc.
  - cbn [ret].
    destruct ((stop_reason r =? "tool_use")%string
              && truthy_obj (tool_manager st)) eqn:Hcond.
    + apply andb_true_iff in Hcond. destruct Hcond as [Hstop Htm].
      apply String.eqb_eq in Hstop.
      destruct (tool_manager st) as [f|] eqn:Hf; [|discriminate].
      destruct (execute_tools_shape f r st
                  (tr0 ++ [EvCreate RoundCall (round_count st)
                             (round_params st) (LLMResponse r)]) Hf)
        as (ok & res & delta & Hrun & Hshape).
      unfold bind at 1. rewrite Hrun. cbn [fst snd].
      rewrite <- app_assoc. cbn [app].
      destruct ok; cbn [negb].
      * rewrite should_continue_add_results.
        change (_should_continue_rounds (add_assistant st r))
          with (_should_continue_rounds st).
        destruct (fst (_should_continue_rounds st)) eqn:Hsc; cbn [negb].
        -- eexists _, _. split; [reflexivity|].
           apply RS_continue with (res := res); auto. now rewrite Hf.
        -- unfold bind, messages_create, content0_text, ret.
           rewrite round_count_add_results. cbn [round_count add_assistant set_messages].
           set (st' := add_results _ res).
           set (tr1 := tr0 ++ _).
           pose proof (RS_final st r res delta
                         (self_client self tr1 (final_params st')) Hstop)
             as HS.
           rewrite Hf in HS. specialize (HS eq_refl Hshape Hsc).
           destruct (self_client self tr1 (final_params st')) as [fr | fe];
             cbn [llm_text outcome_map] in HS.
           ++ destruct (first_text fr) eqn:Hft; cbn [outcome_map] in HS;
                (eexists _, _; split;
                 [unfold tr1; rewrite <- app_assoc; cbn [app];
                  rewrite app_comm_cons; reflexivity | exact HS]).
           ++ eexists _, _; split;
                [unfold tr1; rewrite <- app_assoc; cbn [app];
                 rewrite app_comm_cons; reflexivity | exact HS].
      * eexists _, _. split; [reflexivity|].
        apply RS_tool_error with (res := res); auto. now rewrite Hf.
    + unfold bind, content0_text, ret.
      pose proof (RS_no_tool_use st r Hcond) as HS.
      destruct (first_text r); cbn [outcome_map] in HS;
        (eexists _, _; split; [reflexivity | exact HS]).
  - cbn [ret]. eexists _, _. split; [reflexivity|]. apply RS_api_error.
Qed.

Lemma first_text_fuel r : first_text r <> OutOfFuel.
Proof.
  unfold first_text. destruct (response_content r) as [|[t | id name input] bs];
    discriminate.
Qed.

Lemma llm_text_fuel fo : llm_text fo <> OutOfFuel.
Proof. destruct fo; [apply first_text_fuel | discriminate]. Qed.

Lemma outcome_map_fuel {A B} (f : A -> B) o :
  outcome_map f o = OutOfFuel -> o = OutOfFuel.
Proof. destruct o; cbn; congruence. Qed.

Lemma outcome_map_ok {A B} (f : A -> B) o b :
  outcome_map f o = Ok b -> exists a, o = Ok a /\ b = f a.
Proof. destruct o; cbn; intros H; inversion H; eauto. Qed.

Lemma outcome_map_raise {A B} (f : A -> B) o e :
  outcome_map f o = Raise e -> o = Raise e.
Proof. destruct o; cbn; congruence. Qed.

(** A round never runs out of fuel: it has no loop of its own but the one
    over the blocks of the response. *)
Lemma round_shape_fuel st delta : ~ RoundShape st OutOfFuel delta.
Proof.
  intros H. inversion H as [ | r Hc Ho | | r res d fo Hs Ht HT Hsc Ho | ].
  - apply outcome_map_fuel in Ho. now apply first_text_fuel in Ho.
  - apply outcome_map_fuel in Ho. now apply llm_text_fuel in Ho.
Qed.

Lemma same_config_refl st : same_config st st.
Proof. repeat split. Qed.

Lemma same_config_add st r res :
  same_config st (add_results (add_assistant st r) res).
Proof. unfold add_results. destruct (nonempty res); repeat split. Qed.

Lemma round_shape_config st response sc reason st' delta :
  RoundShape st (Ok (response, sc, reason, st')) delta -> same_config st st'.
Proof.
  intros H.
  inversion H as [ e | r Hc Ho | r res d Hs Ht HT
                 | r res d fo Hs Ht HT Hsc Ho | r res d Hs Ht HT Hsc ]; subst.
  - apply same_config_refl.
  - apply outcome_map_ok in Ho. destruct Ho as (t & _ & Ho).
    inversion Ho; subst. apply same_config_refl.
  - repeat split.
  - apply outcome_map_ok in Ho. destruct Ho as (t & _ & Ho).
    inversion Ho; subst. apply same_config_add.
  - apply same_config_add.
Qed.

Lemma should_continue_true st :
  fst (_should_continue_rounds st) = true ->
  round_count st < max_rounds st - 1.
Proof.
  unfold _should_continue_rounds.
  destruct (round_count st >=? max_rounds st - 1)%Z eqn:Hge;
    [discriminate | intros _].
  rewrite Z.geb_leb in Hge. apply Z.leb_gt in Hge. exact Hge.
Qed.

(** A round answers "continue" only before the last allowed round. *)
Lemma round_shape_continue st response reason st' delta :
  RoundShape st (Ok (response, true, reason, st')) delta ->
  round_count st < max_rounds st - 1.
Proof.
  intros H.
  inversion H as [ e | r Hc Ho | r res d Hs Ht HT
                 | r res d fo Hs Ht HT Hsc Ho | r res d Hs Ht HT Hsc ]; subst.
  - apply outcome_map_ok in Ho. destruct Ho as (t & _ & Ho). inversion Ho.
  - apply outcome_map_ok in Ho. destruct Ho as (t & _ & Ho). inversion Ho.
  - now apply should_continue_true.
Qed.

(** Enough fuel: the loop ends, and in one of the shapes above. *)
Lemma loop_shape self :
  forall fuel st tr0,
    (Z.to_nat (max_rounds st - round_count st) <= fuel)%nat ->
    exists o delta,
      rounds_loop fuel self st tr0 = (o, tr0 ++ delta)
      /\ LoopShape st o delta.
Proof.
  induction fuel as [|fuel IH]; intros st tr0 Hfuel.
  - cbn [rounds_loop].
    destruct (round_count st <? max_rounds st)%Z eqn:Hlt.
    + apply Z.ltb_lt in Hlt. lia.
    + apply Z.ltb_ge in Hlt. exists (Ok (Exhausted st)), [].
      rewrite app_nil_r. split; [reflexivity | now constructor].
  - cbn [rounds_loop].
    destruct (round_count st <? max_rounds st)%Z eqn:Hlt.
    + apply Z.ltb_lt in Hlt.
      destruct (round_shape self st tr0) as (o & delta & Hrun & Hshape).
      unfold bind. rewrite Hrun.
      destruct o as [[[[response sc] reason] st'] | e | ].
      * destruct sc; cbn [negb].
        -- pose proof (round_shape_config _ _ _ _ _ _ Hshape)
             as (Hrc & Hmr & _).
           pose proof (round_shape_continue _ _ _ _ _ Hshape) as Hlast.
           destruct (IH (set_round_count st' (round_count st' + 1))
                       (tr0 ++ delta)) as (o' & delta' & Hrun' & Hshape').
           { cbn [max_rounds round_count set_round_count]. lia. }
           rewrite Hrun', <- app_assoc. exists o', (delta ++ delta').
           split; [reflexivity|]. eapply LS_continue; eauto.
        -- exists (Ok (Returned response)), delta.
           split; [reflexivity|]. eapply LS_return; eauto.
      * exists (Raise e), delta. split; [reflexivity|].
        now apply LS_raise.
      * now apply round_shape_fuel in Hshape.
    + apply Z.ltb_ge in Hlt. exists (Ok (Exhausted st)), [].
      rewrite app_nil_r. split; [reflexivity | now constructor].
Qed.

Lemma loop_shape_fuel st delta : ~ LoopShape st OutOfFuel delta.
Proof.
  intros H. remember OutOfFuel as o eqn:Ho.
  induction H; try discriminate. now apply IHLoopShape.
Qed.

Lemma query_shape_fuel fuel self query history tls tm mr :
  (Z.to_nat mr <= fuel)%nat ->
  exists o tr,
    run (generate_response_with_rounds_fuel fuel self query history tls tm mr)
    = (o, tr)
    /\ QueryShape (initial_state self query history tls tm mr) o tr.
Proof.
  intros Hfuel. unfold run, generate_response_with_rounds_fuel, bind.
  set (st0 := initial_state self query history tls tm mr).
  destruct (loop_shape self fuel st0 []) as (o & delta & Hrun & Hshape).
  { subst st0. cbn [initial_state max_rounds round_count].
    now rewrite Z.sub_0_r. }
  rewrite Hrun. cbn [app].
  destruct o as [[response | st] | e | ].
  - eexists _, _. split; [reflexivity|]. now apply QS_returned.
  - unfold messages_create, content0_text.
    pose proof (QS_fallback st0 st delta
                  (self_client self delta (final_params st)) Hshape) as HQ.
    destruct (self_client self delta (final_params st)) as [fr | fe];
      cbn [llm_text] in HQ; eexists _, _; (split; [reflexivity | exact HQ]).
  - eexists _, _. split; [reflexivity|]. now apply QS_raised.
  - now apply loop_shape_fuel in Hshape.
Qed.

Lemma query_shape self query history tls tm mr :
  QueryShape (initial_state self query history tls tm mr)
    (fst (run (generate_response_with_rounds self query history tls tm mr)))
    (snd (run (generate_response_with_rounds self query history tls tm mr))).
Proof.
  destruct (query_shape_fuel (Z.to_nat mr) self query history tls tm mr
              (Nat.le_refl _)) as (o & tr & Hrun & Hshape).
  unfold generate_response_with_rounds. now rewrite Hrun.
Qed.

(** ** Counting the LLM requests *)

Lemma create_sites_app tr1 tr2 :
  create_sites (tr1 ++ tr2) = create_sites tr1 ++ create_sites tr2.
Proof.
  induction tr1 as [|[site rc p o | rc n i o] tr1 IH]; cbn; congruence.
Qed.

Lemma create_sites_ok_events rc l : create_sites (map (ok_event rc) l) = [].
Proof.
  induction l as [|[[[id name] input] out] l IH]; [reflexivity | exact IH].
Qed.

Lemma tools_shape_sites rc uses ok res delta :
  ToolsShape rc uses ok res delta -> create_sites delta = [].
Proof.
  intros [outs Hlen | done id name input rest outs e Huses Hlen].
  - apply create_sites_ok_events.
  - rewrite create_sites_app, create_sites_ok_events. reflexivity.
Qed.

Lemma round_sites st o delta :
  RoundShape st o delta ->
  create_sites delta = [RoundCall]
  \/ create_sites delta = [RoundCall; RoundFinalCall].
Proof.
  intros [ e | r Hc | r res d Hs Ht HT | r res d fo Hs Ht HT Hsc
         | r res d Hs Ht HT Hsc ]; cbn [create_sites];
    try rewrite create_sites_app;
    try rewrite (tools_shape_sites _ _ _ _ _ HT); auto.
Qed.

Lemma round_sites_continue st response reason st' delta :
  RoundShape st (Ok (response, true, reason, st')) delta ->
  create_sites delta = [RoundCall].
Proof.
  intros H.
  inversion H as [ e | r Hc Ho | r res d Hs Ht HT
                 | r res d fo Hs Ht HT Hsc Ho | r res d Hs Ht HT Hsc ]; subst.
  - reflexivity.
  - apply outcome_map_ok in Ho. destruct Ho as (t & _ & Ho). inversion Ho.
  - cbn [create_sites]. now rewrite (tools_shape_sites _ _ _ _ _ HT).
Qed.

Lemma loop_calls st o delta :
  LoopShape st o delta ->
  round_count st <= max_rounds st ->
  Z.of_nat (llm_calls delta) + fallback_due o
  <= max_rounds st - round_count st + 1.
Proof.
  unfold llm_calls.
  induction 1 as [ st Hge | st response reason st' delta Hlt HR
                 | st e delta Hlt HR
                 | st response reason st' delta o delta' Hlt HR HL IH ];
    intros Hle; cbn [fallback_due].
  - cbn. lia.
  - destruct (round_sites _ _ _ HR) as [-> | ->]; cbn; lia.
  - destruct (round_sites _ _ _ HR) as [-> | ->]; cbn; lia.
  - destruct (round_shape_config _ _ _ _ _ _ HR) as (Hrc & Hmr & _).
    rewrite create_sites_app, (round_sites_continue _ _ _ _ _ HR).
    cbn [app List.length]. cbn [max_rounds round_count set_round_count] in IH.
    lia.
Qed.

(** C1: for every [max_rounds >= 1], whatever the LLM and the tools answer,
    a query issues at most [max_rounds + 1] LLM requests. *)
Theorem llm_calls_at_most_max_rounds_plus_one self query history tls tm mr :
  1 <= mr ->
  Z.of_nat
    (llm_calls
       (snd (run (generate_response_with_rounds self query history tls tm
                    mr))))
  <= mr + 1.
Proof.
  intros Hmr.
  pose proof (query_shape self query history tls tm mr) as HQ.
  set (st0 := initial_state self query history tls tm mr) in HQ.
  assert (H0 : round_count st0 = 0 /\ max_rounds st0 = mr) by (split; reflexivity).
  destruct H0 as [Hrc Hmax]. clearbody st0.
  name_run o tr.
  destruct HQ as [ response delta HL | e delta HL | st delta fo HL ];
    apply loop_calls in HL; try lia; cbn [fallback_due] in HL.
  - lia.
  - lia.
  - unfold llm_calls in *. rewrite create_sites_app, length_app.
    cbn [create_sites List.length]. lia.
Qed.

Lemma llm_calls_bound_witness :
  1 <= 2
  /\ Z.of_nat
    (llm_calls
       (snd (run (generate_response_with_rounds example_generator
                    "Complex query requiring multiple searches" None
                    example_tools example_tool_manager 2))))
     <= 2 + 1.
Proof.
  assert (H : 1 <= 2) by lia.
  split; [exact H|].
  exact (llm_calls_at_most_max_rounds_plus_one example_generator
           "Complex query requiring multiple searches" None example_tools
           example_tool_manager 2 H).
Defined.

(** ** Rounds of the events *)

Lemma tools_shape_rounds rc uses ok res delta :
  ToolsShape rc uses ok res delta ->
  Forall (fun ev => ev_round ev = rc) delta.
Proof.
  assert (Hok : forall l, Forall (fun ev => ev_round ev = rc)
                            (map (ok_event rc) l)).
  { induction l as [|[[[id name] input] out] l IH]; constructor;
      [reflexivity | exact IH]. }
  intros [outs Hlen | done id name input rest outs e Huses Hlen].
  - apply Hok.
  - apply Forall_app. split; [apply Hok | repeat constructor].
Qed.

Lemma round_rounds st o delta :
  RoundShape st o delta ->
  Forall (fun ev => ev_round ev = round_count st) delta.
Proof.
  intros [ e | r Hc | r res d Hs Ht HT | r res d fo Hs Ht HT Hsc
         | r res d Hs Ht HT Hsc ];
    repeat first [ apply Forall_cons; [reflexivity|]
                 | apply Forall_app; split
                 | apply Forall_nil
                 | exact (tools_shape_rounds _ _ _ _ _ HT) ].
Qed.

Lemma loop_rounds st o delta :
  LoopShape st o delta ->
  Forall (fun ev => round_count st <= ev_round ev < max_rounds st) delta.
Proof.
  induction 1 as [ st Hge | st response reason st' delta Hlt HR
                 | st e delta Hlt HR
                 | st response reason st' delta o delta' Hlt HR HL IH ].
  - constructor.
  - eapply Forall_impl; [|exact (round_rounds _ _ _ HR)]. cbn. lia.
  - eapply Forall_impl; [|exact (round_rounds _ _ _ HR)]. cbn. lia.
  - destruct (round_shape_config _ _ _ _ _ _ HR) as (Hrc & Hmr & _).
    apply Forall_app. split.
    + eapply Forall_impl; [|exact (round_rounds _ _ _ HR)]. cbn. lia.
    + eapply Forall_impl; [|exact IH].
      cbn [max_rounds round_count set_round_count]. cbn. lia.
Qed.

Lemma loop_exits_inside st o delta :
  LoopShape st o delta ->
  round_count st < max_rounds st ->
  exits_inside_body o = true /\ ~ In FallbackCall (create_sites delta).
Proof.
  induction 1 as [ st Hge | st response reason st' delta Hlt HR
                 | st e delta Hlt HR
                 | st response reason st' delta o delta' Hlt HR HL IH ];
    intros Hlt'.
  - lia.
  - split; [reflexivity|].
    destruct (round_sites _ _ _ HR) as [-> | ->]; cbn; intuition discriminate.
  - split; [reflexivity|].
    destruct (round_sites _ _ _ HR) as [-> | ->]; cbn; intuition discriminate.
  - destruct (round_shape_config _ _ _ _ _ _ HR) as (Hrc & Hmr & _).
    pose proof (round_shape_continue _ _ _ _ _ HR) as Hlast.
    destruct IH as [Hexit Hsites].
    { cbn [max_rounds round_count set_round_count]. lia. }
    split; [exact Hexit|].
    rewrite create_sites_app, (round_sites_continue _ _ _ _ _ HR).
    cbn. intuition discriminate.
Qed.

(** C10: for [max_rounds >= 1] the loop is always left from inside its body
    and the call after the loop is never made: [_should_continue_rounds]
    answers [False] as soon as [round_count >= max_rounds - 1], so no event
    happens at a [round_count] that reached [max_rounds]. *)
Theorem post_loop_fallback_unreachable self query history tls tm mr :
  1 <= mr ->
  (forall st, max_rounds st - 1 <= round_count st ->
              fst (_should_continue_rounds st) = false)
  /\ (forall fuel, (Z.to_nat mr <= fuel)%nat ->
        exits_inside_body
          (fst (rounds_loop fuel self
                  (initial_state self query history tls tm mr) []))
        = true)
  /\ ~ In FallbackCall
         (create_sites
            (snd (run (generate_response_with_rounds self query history tls
                         tm mr))))
  /\ Forall (fun ev => ev_round ev < mr)
       (snd (run (generate_response_with_rounds self query history tls tm
                    mr))).
Proof.
  intros Hmr. split; [|split].
  - intros st Hst. unfold _should_continue_rounds.
    destruct (round_count st >=? max_rounds st - 1)%Z eqn:Hge;
      [reflexivity|].
    rewrite Z.geb_leb in Hge. apply Z.leb_gt in Hge. lia.
  - intros fuel Hfuel.
    destruct (loop_shape self fuel
                (initial_state self query history tls tm mr) [])
      as (o & delta & Hrun & HL).
    { cbn [initial_state max_rounds round_count]. now rewrite Z.sub_0_r. }
    rewrite Hrun. cbn [fst].
    apply loop_exits_inside in HL; [tauto | cbn; lia].
  - pose proof (query_shape self query history tls tm mr) as HQ.
    set (st0 := initial_state self query history tls tm mr) in HQ.
    assert (H0 : round_count st0 = 0 /\ max_rounds st0 = mr)
      by (split; reflexivity).
    destruct H0 as [Hrc Hmax]. clearbody st0.
    name_run o tr.
    destruct HQ as [ response delta HL | e delta HL | st delta fo HL ].
    + split; [apply loop_exits_inside in HL; [tauto | lia]|].
      apply loop_rounds in HL. eapply Forall_impl; [|exact HL]. cbn. lia.
    + split; [apply loop_exits_inside in HL; [tauto | lia]|].
      apply loop_rounds in HL. eapply Forall_impl; [|exact HL]. cbn. lia.
    + apply loop_exits_inside in HL; [|lia]. destruct HL as [HL _].
      discriminate HL.
Qed.

Lemma post_loop_fallback_witness :
  1 <= 2
  /\ ~ In FallbackCall
         (create_sites
            (snd (run (generate_response_with_rounds example_generator
                         "Complex query requiring multiple searches" None
                         example_tools example_tool_manager 2)))).
Proof.
  assert (H : 1 <= 2) by lia.
  split; [exact H|].
  exact (proj1 (proj2 (proj2
           (post_loop_fallback_unreachable example_generator
              "Complex query requiring multiple searches" None example_tools
              example_tool_manager 2 H)))).
Defined.

Lemma no_tool_raise_absurd tr pre ev post :
  no_tool_raise tr -> tr = pre ++ ev :: post -> is_tool_raise ev = true ->
  False.
Proof.
  intros Hno -> Hev. apply Forall_app in Hno. destruct Hno as [_ Hno].
  inversion Hno as [|? ? Hx _]. congruence.
Qed.

Lemma split_after (P : Event -> bool) (l1 l2 pre post : Trace) ev :
  l1 ++ l2 = pre ++ ev :: post ->
  Forall (fun x => P x = false) l1 -> P ev = true ->
  exists pre', pre = l1 ++ pre' /\ l2 = pre' ++ ev :: post.
Proof.
  revert pre. induction l1 as [|a l1 IH]; intros pre Heq Hno Hev.
  - exists pre. split; [reflexivity | exact Heq].
  - inversion Hno as [|? ? Ha Hno']; subst.
    destruct pre as [|b pre]; cbn in Heq; inversion Heq; subst.
    + congruence.
    + destruct (IH pre H1 Hno' Hev) as (pre' & -> & ->).
      exists pre'. split; reflexivity.
Qed.

Lemma split_after_clean (l1 l2 pre post : Trace) ev :
  l1 ++ l2 = pre ++ ev :: post ->
  no_tool_raise l1 -> is_tool_raise ev = true ->
  exists pre', pre = l1 ++ pre' /\ l2 = pre' ++ ev :: post.
Proof. apply split_after. Qed.

Lemma split_before_last (l pre post : Trace) c ev :
  l ++ [c] = pre ++ ev :: post -> ev <> c ->
  exists post', post = post' ++ [c] /\ l = pre ++ ev :: post'.
Proof.
  revert l. induction pre as [|b pre IH]; intros l Heq Hne.
  - destruct l as [|a l]; cbn in Heq; inversion Heq; subst.
    + congruence.
    + exists l. split; reflexivity.
  - destruct l as [|a l]; cbn in Heq; inversion Heq; subst.
    + now destruct pre.
    + destruct (IH l H1 Hne) as (post' & -> & ->).
      exists post'. split; reflexivity.
Qed.

Lemma ok_events_clean rc l : no_tool_raise (map (ok_event rc) l).
Proof.
  induction l as [|[[[id name] input] out] l IH]; constructor;
    [reflexivity | exact IH].
Qed.

Lemma tools_shape_clean rc uses res delta :
  ToolsShape rc uses true res delta -> no_tool_raise delta.
Proof.
  intros H. inversion H; subst. apply ok_events_clean.
Qed.

Lemma round_continue_clean st response reason st' delta :
  RoundShape st (Ok (response, true, reason, st')) delta ->
  no_tool_raise delta.
Proof.
  intros H.
  inversion H as [ e | r Hc Ho | r res d Hs Ht HT
                 | r res d fo Hs Ht HT Hsc Ho | r res d Hs Ht HT Hsc ]; subst.
  - apply outcome_map_ok in Ho. destruct Ho as (t & _ & Ho). inversion Ho.
  - apply outcome_map_ok in Ho. destruct Ho as (t & _ & Ho). inversion Ho.
  - constructor; [reflexivity | exact (tools_shape_clean _ _ _ _ HT)].
Qed.

(** Inside a round a failing tool call is the last event, no request
    follows it, and the round answers the fixed failure string. *)
Lemma round_tool_raise st o delta pre ev post :
  RoundShape st o delta ->
  delta = pre ++ ev :: post -> is_tool_raise ev = true ->
  post = []
  /\ (exists st', o = Ok ("Tool execution failed", false, Some "tool_error",
                          st'))
  /\ no_tool_raise pre
  /\ create_sites delta = [RoundCall].
Proof.
  intros [ e | r Hc | r res d Hs Ht HT | r res d fo Hs Ht HT Hsc
         | r res d Hs Ht HT Hsc ] Heq Hev.
  - exfalso. eapply no_tool_raise_absurd; [|exact Heq|exact Hev].
    repeat constructor.
  - exfalso. eapply no_tool_raise_absurd; [|exact Heq|exact Hev].
    repeat constructor.
  - pose proof (tools_shape_sites _ _ _ _ _ HT) as Hsites.
    inversion HT as [|done id name input rest outs e Huses Hlen]; subst.
    rewrite app_comm_cons in Heq.
    assert (Hclean : no_tool_raise
                       (EvCreate RoundCall (round_count st) (round_params st)
                          (LLMResponse r)
                        :: map (ok_event (round_count st))
                             (combine done outs))).
    { constructor; [reflexivity | apply ok_events_clean]. }
    destruct (split_after_clean _ _ _ _ _ Heq Hclean Hev)
      as (pre' & -> & Hlast).
    destruct pre' as [|x pre']; cbn in Hlast.
    + inversion Hlast; subst. rewrite app_nil_r.
      repeat split; eauto. cbn [create_sites]. now rewrite Hsites.
    + inversion Hlast as [[Hx Hnil]]. destruct pre'; discriminate.
  - exfalso. eapply no_tool_raise_absurd; [|exact Heq|exact Hev].
    constructor; [reflexivity|]. apply Forall_app. split.
    + exact (tools_shape_clean _ _ _ _ HT).
    + repeat constructor.
  - exfalso. eapply no_tool_raise_absurd; [|exact Heq|exact Hev].
    constructor; [reflexivity | exact (tools_shape_clean _ _ _ _ HT)].
Qed.

Lemma loop_tool_raise st o delta :
  LoopShape st o delta ->
  forall k pre name input e post,
    delta = pre ++ EvExecuteTool (k - 1) name input (ToolRaise e) :: post ->
    post = []
    /\ o = Ok (Returned "Tool execution failed")
    /\ create_sites delta = repeat RoundCall (Z.to_nat (k - round_count st))
    /\ round_count st < k
    /\ no_tool_raise pre.
Proof.
  induction 1 as [ st Hge | st response reason st' delta Hlt HR
                 | st e' delta Hlt HR
                 | st response reason st' delta o delta' Hlt HR HL IH ];
    intros k pre name input e post Heq.
  - now destruct pre.
  - destruct (round_tool_raise _ _ _ _ _ _ HR Heq eq_refl)
      as (Hpost & (st1 & Ho) & Hpre & Hsites).
    pose proof (round_rounds _ _ _ HR) as Hrounds. rewrite Heq in Hrounds.
    apply Forall_app in Hrounds. destruct Hrounds as [_ Hrounds].
    inversion Hrounds as [|? ? Hk _]. cbn in Hk.
    inversion Ho; subst response.
    replace (k - round_count st) with 1 by lia.
    repeat split; auto. lia.
  - destruct (round_tool_raise _ _ _ _ _ _ HR Heq eq_refl)
      as (_ & (st1 & Ho) & _). discriminate Ho.
  - destruct (round_shape_config _ _ _ _ _ _ HR) as (Hrc & _).
    pose proof (round_continue_clean _ _ _ _ _ HR) as Hclean.
    destruct (split_after_clean _ _ _ _ _ Heq Hclean eq_refl)
      as (pre' & -> & Heq').
    destruct (IH _ _ _ _ _ _ Heq') as (Hpost & Ho & Hsites & Hk & Hpre).
    cbn [round_count set_round_count] in Hsites, Hk.
    repeat split; auto.
    + rewrite create_sites_app, (round_sites_continue _ _ _ _ _ HR), Hsites.
      replace (Z.to_nat (k - round_count st))
        with (S (Z.to_nat (k - (round_count st' + 1)))) by lia.
      reflexivity.
    + lia.
    + apply Forall_app. split; assumption.
Qed.

(** C2: when a tool call of the [k]-th round (the round at
    [round_count = k - 1]) raises, nothing follows it in the query: no
    further tool call, no further LLM request; the [k] LLM requests made are
    the calls of the rounds, none is a call without tools after a round, and
    the answer is ["Tool execution failed"]. *)
Theorem tool_failure_ends_query self query history tls tm mr k pre name input
    e post :
  snd (run (generate_response_with_rounds self query history tls tm mr))
  = pre ++ EvExecuteTool (k - 1) name input (ToolRaise e) :: post ->
  post = []
  /\ fst (run (generate_response_with_rounds self query history tls tm mr))
     = Ok "Tool execution failed"
  /\ 1 <= k
  /\ Z.of_nat
       (llm_calls
          (snd (run (generate_response_with_rounds self query history tls tm
                       mr))))
     = k
  /\ create_sites
       (snd (run (generate_response_with_rounds self query history tls tm
                    mr)))
     = repeat RoundCall (Z.to_nat k)
  /\ no_tool_raise pre.
Proof.
  pose proof (query_shape self query history tls tm mr) as HQ.
  set (st0 := initial_state self query history tls tm mr) in HQ.
  assert (Hrc : round_count st0 = 0) by reflexivity. clearbody st0.
  name_run o tr. intros Heq.
  destruct HQ as [ response delta HL | e' delta HL | st delta fo HL ].
  - destruct (loop_tool_raise _ _ _ HL _ _ _ _ _ _ Heq)
      as (Hpost & Ho & Hsites & Hk & Hpre).
    rewrite Hrc, Z.sub_0_r in Hsites. inversion Ho; subst response.
    unfold llm_calls. rewrite Hsites, repeat_length.
    repeat split; auto; lia.
  - destruct (loop_tool_raise _ _ _ HL _ _ _ _ _ _ Heq) as (_ & Ho & _).
    discriminate Ho.
  - destruct (split_before_last _ _ _ _ _ Heq) as (post' & _ & Heq');
      [discriminate|].
    destruct (loop_tool_raise _ _ _ HL _ _ _ _ _ _ Heq') as (_ & Ho & _).
    discriminate Ho.
Qed.

Lemma tool_failure_witness :
  let tr :=
    snd (run (generate_response_with_rounds example_generator
                "Complex query requiring multiple searches" None
                example_tools failing_tool_manager 2)) in
  tr = firstn 3 tr
       ++ EvExecuteTool (2 - 1) "get_course_outline"
            [("course_name", PyStr "test")]
            (ToolRaise (mkExn "Exception" "Tool failed")) :: []
  /\ fst (run (generate_response_with_rounds example_generator
                 "Complex query requiring multiple searches" None
                 example_tools failing_tool_manager 2))
     = Ok "Tool execution failed"
  /\ Z.of_nat (llm_calls tr) = 2.
Proof.
  cbv zeta.
  assert (H : snd (run (generate_response_with_rounds example_generator
                          "Complex query requiring multiple searches" None
                          example_tools failing_tool_manager 2))
              = firstn 3
                  (snd (run (generate_response_with_rounds example_generator
                               "Complex query requiring multiple searches"
                               None example_tools failing_tool_manager 2)))
                ++ EvExecuteTool (2 - 1) "get_course_outline"
                     [("course_name", PyStr "test")]
                     (ToolRaise (mkExn "Exception" "Tool failed")) :: [])
    by (vm_compute; reflexivity).
  split; [exact H|].
  destruct (tool_failure_ends_query _ _ _ _ _ _ _ _ _ _ _ _ H)
    as (_ & Hans & _ & Hcalls & _).
  split; [exact Hans | exact Hcalls].
Defined.

Lemma messages_after_tools st r outs :
  messages
    (add_results (add_assistant st r)
       (map ok_block (combine (tool_uses (response_content r)) outs)))
  = messages st ++ appended_messages r outs.
Proof.
  unfold add_results, appended_messages.
  destruct (nonempty _); cbn [messages set_messages add_assistant];
    [rewrite <- app_assoc|]; reflexivity.
Qed.

Lemma round_params_messages st : param_messages (round_params st) = messages st.
Proof.
  unfold round_params.
  destruct (truthy_list (tools st) && truthy_obj (tool_manager st));
    reflexivity.
Qed.

Lemma round_params_base st : param_base (round_params st) = base_params st.
Proof.
  unfold round_params.
  destruct (truthy_list (tools st) && truthy_obj (tool_manager st));
    reflexivity.
Qed.

Lemma ok_events_no_round_call rc l :
  Forall (fun ev => is_round_call ev = false) (map (ok_event rc) l).
Proof.
  induction l as [|[[[id name] input] out] l IH]; constructor;
    [reflexivity | exact IH].
Qed.

Lemma tools_shape_no_round_call rc uses ok res delta :
  ToolsShape rc uses ok res delta ->
  Forall (fun ev => is_round_call ev = false) delta.
Proof.
  intros [outs Hlen | done id name input rest outs e Huses Hlen].
  - apply ok_events_no_round_call.
  - apply Forall_app. split;
      [apply ok_events_no_round_call | repeat constructor].
Qed.

Lemma head_unique (P : Event -> bool) x rest pre y post :
  x :: rest = pre ++ y :: post ->
  Forall (fun ev => P ev = false) rest -> P y = true ->
  pre = [] /\ x = y /\ rest = post.
Proof.
  intros Heq Hrest Hy. destruct pre as [|b pre]; cbn in Heq.
  - inversion Heq. auto.
  - inversion Heq; subst. apply Forall_app in Hrest.
    destruct Hrest as [_ Hrest]. inversion Hrest. congruence.
Qed.






(** ** A first response without tool use *)

Lemma round_first_response st o delta site rc p r post :
  RoundShape st o delta ->
  delta = EvCreate site rc p (LLMResponse r) :: post ->
  stop_reason r <> "tool_use" ->
  post = []
  /\ o = outcome_map (fun t => (t, false, Some "no_tool_use", st))
           (first_text r).
Proof.
  intros [ e | r' Hc | r' res d Hs Ht HT | r' res d fo Hs Ht HT Hsc
         | r' res d Hs Ht HT Hsc ] Heq Hstop;
    inversion Heq; subst; try contradiction.
  split; reflexivity.
Qed.

Lemma round_nonempty st o delta :
  RoundShape st o delta -> exists ev rest, delta = ev :: rest.
Proof. intros []; eauto. Qed.

Lemma loop_first_response st o delta site rc p r post :
  LoopShape st o delta ->
  delta = EvCreate site rc p (LLMResponse r) :: post ->
  stop_reason r <> "tool_use" ->
  post = [] /\ o = outcome_map Returned (first_text r).
Proof.
  intros HL Heq Hstop.
  destruct HL as [ st Hge | st response reason st' delta Hlt HR
                 | st e' delta Hlt HR
                 | st response reason st' delta o delta' Hlt HR HL ].
  - discriminate Heq.
  - destruct (round_first_response _ _ _ _ _ _ _ _ HR Heq Hstop)
      as [Hpost Ho].
    split; [exact Hpost|]. symmetry in Ho.
    apply outcome_map_ok in Ho. destruct Ho as (t & -> & Ho).
    inversion Ho; reflexivity.
  - destruct (round_first_response _ _ _ _ _ _ _ _ HR Heq Hstop)
      as [Hpost Ho].
    split; [exact Hpost|]. symmetry in Ho.
    apply outcome_map_raise in Ho. now rewrite Ho.
  - destruct (round_nonempty _ _ _ HR) as (ev & rest & ->).
    cbn in Heq. inversion Heq; subst ev.
    destruct (round_first_response _ _ _ _ _ _ _ _ HR eq_refl Hstop)
      as [_ Ho].
    symmetry in Ho. apply outcome_map_ok in Ho.
    destruct Ho as (t & _ & Ho). inversion Ho.
Qed.

(** C5: when the first LLM response does not ask for tools
    ([stop_reason] is not ["tool_use"]), the trace of the query is that one
    request: one LLM call, no tool call; and the answer is the text of the
    response. *)
Theorem first_response_without_tool_use self query history tls tm mr site rc
    p r post :
  snd (run (generate_response_with_rounds self query history tls tm mr))
  = EvCreate site rc p (LLMResponse r) :: post ->
  stop_reason r <> "tool_use" ->
  post = []
  /\ llm_calls
       (snd (run (generate_response_with_rounds self query history tls tm
                    mr))) = 1%nat
  /\ tool_calls
       (snd (run (generate_response_with_rounds self query history tls tm
                    mr))) = 0%nat
  /\ fst (run (generate_response_with_rounds self query history tls tm mr))
     = first_text r.
Proof.
  pose proof (query_shape self query history tls tm mr) as HQ.
  set (st0 := initial_state self query history tls tm mr) in HQ.
  clearbody st0.
  name_run o tr.
  intros Heq Hstop.
  assert (Hgoal : post = [] /\ o = first_text r).
  { destruct HQ as [ response delta HL | e' delta HL | st delta fo HL ].
    - destruct (loop_first_response _ _ _ _ _ _ _ _ HL Heq Hstop)
        as [Hpost Ho].
      split; [exact Hpost|].
      destruct (first_text r); cbn in Ho; congruence.
    - destruct (loop_first_response _ _ _ _ _ _ _ _ HL Heq Hstop)
        as [Hpost Ho].
      split; [exact Hpost|].
      destruct (first_text r); cbn in Ho; congruence.
    - destruct delta as [|ev delta]; cbn in Heq.
      + inversion Heq; subst. split; reflexivity.
      + inversion Heq; subst ev.
        destruct (loop_first_response _ _ _ _ _ _ _ _ HL eq_refl Hstop)
          as [_ Ho].
        destruct (first_text r); discriminate Ho. }
  destruct Hgoal as [-> ->]. subst tr. repeat split; reflexivity.
Qed.

Lemma first_response_without_tool_use_witness :
  let st0 :=
    initial_state direct_generator "What is 2+2?" None example_tools
      example_tool_manager 2 in
  (snd (run (generate_response_with_rounds direct_generator "What is 2+2?"
               None example_tools example_tool_manager 2))
   = EvCreate RoundCall 0 (round_params st0) (LLMResponse direct_response)
     :: []
   /\ stop_reason direct_response <> "tool_use")
  /\ fst (run (generate_response_with_rounds direct_generator "What is 2+2?"
                 None example_tools example_tool_manager 2))
     = Ok "Direct answer without tools".
Proof.
  cbv zeta.
  assert (H1 : snd (run (generate_response_with_rounds direct_generator
                           "What is 2+2?" None example_tools
                           example_tool_manager 2))
               = EvCreate RoundCall 0
                   (round_params
                      (initial_state direct_generator "What is 2+2?" None
                         example_tools example_tool_manager 2))
                   (LLMResponse direct_response) :: [])
    by (vm_compute; reflexivity).
  assert (H2 : stop_reason direct_response <> "tool_use")
    by (cbn; discriminate).
  split; [split; assumption|].
  destruct (first_response_without_tool_use _ _ _ _ _ _ _ _ _ _ _ H1 H2)
    as (_ & _ & _ & Hans).
  exact Hans.
Defined.

(** ** The messages of a round *)






(** ** The result block of a failed tool call *)

Lemma failed_tools_log f r st tr0 st' tr1 :
  tool_manager st = Some f ->
  _execute_tools_and_update_state r st tr0 = (Ok (false, st'), tr1) ->
  messages st'
  = messages st ++ [mkMessage assistant (ContentBlocks (response_content r))].
Proof.
  intros Htm Hrun.
  destruct (execute_tools_shape f r st tr0 Htm)
    as (ok & res & delta & Hrun' & HT).
  rewrite Hrun in Hrun'. inversion Hrun' as [[Hok Hst Htr]]. reflexivity.
Qed.

(** C7 at a failing tool call: the loop over the blocks builds the error
    block (marked [is_error], with the description of the failure and the
    id of the tool use) in its local list, and leaves by [return False]; the
    message log gets the assistant's message only. *)
Theorem error_block_not_logged :
  let st :=
    initial_state example_generator "test query" None example_tools
      always_failing_tool_manager 2 in
  fst (execute_tool_blocks (tool_manager st) (round_count st)
         (response_content tool_use_response_1) [] [])
  = Ok (false,
        [mkToolResult "tool_1" "Tool execution failed: Tool failed"
           (Some true)])
  /\ fst (_execute_tools_and_update_state tool_use_response_1 st [])
     = Ok (false, add_assistant st tool_use_response_1)
  /\ messages (add_assistant st tool_use_response_1)
     = [mkMessage user (ContentStr "test query");
        mkMessage assistant
          (ContentBlocks (response_content tool_use_response_1))].
Proof. cbv zeta. repeat split. Qed.

(** ** Exceptions that leave the entry points *)

(** C3 at a failing request without tools: the request of a round is inside
    [try]/[except] and its failure becomes an answer; the request after the
    tools of the last round is not, and its failure leaves
    [generate_response] and [generate_response_with_rounds] as an
    exception. *)
Theorem final_call_exception_propagates :
  fst (run (generate_response (overloaded_generator []) "test query" None
              example_tools example_tool_manager))
  = Ok "Error generating response: overloaded"
  /\ fst (run (generate_response
                 (overloaded_generator
                    [LLMResponse tool_use_response_1;
                     LLMResponse tool_use_response_2])
                 "test query" None example_tools example_tool_manager))
     = Raise (mkExn "APIError" "overloaded")
  /\ fst (run (generate_response_with_rounds
                 (overloaded_generator [LLMResponse tool_use_response_1])
                 "test query" None example_tools example_tool_manager 1))
     = Raise (mkExn "APIError" "overloaded").
Proof. repeat split. Qed.

(** ** The system prompt of the requests *)

Lemma create_params_app tr1 tr2 :
  create_params (tr1 ++ tr2) = create_params tr1 ++ create_params tr2.
Proof.
  induction tr1 as [|[site rc p o | rc n i o] tr1 IH]; cbn; congruence.
Qed.

Lemma tools_shape_params rc uses ok res delta :
  ToolsShape rc uses ok res delta -> create_params delta = [].
Proof.
  assert (Hok : forall l, create_params (map (ok_event rc) l) = []).
  { induction l as [|[[[id name] input] out] l IH];
      [reflexivity | exact IH]. }
  intros [outs Hlen | done id name input rest outs e Huses Hlen].
  - apply Hok.
  - now rewrite create_params_app, Hok.
Qed.

Lemma round_base_params st o delta :
  RoundShape st o delta ->
  Forall (fun p => param_base p = base_params st) (create_params delta).
Proof.
  intros [ e | r Hc | r res d Hs Ht HT | r res d fo Hs Ht HT Hsc
         | r res d Hs Ht HT Hsc ]; cbn [create_params];
    try rewrite create_params_app;
    try rewrite (tools_shape_params _ _ _ _ _ HT); cbn [create_params app];
    repeat constructor; try apply round_params_base.
  cbn [final_params param_base].
  now destruct (same_config_add st r res) as (_ & _ & _ & _ & Hbp & _).
Qed.

Lemma loop_base_params st o delta :
  LoopShape st o delta ->
  Forall (fun p => param_base p = base_params st) (create_params delta)
  /\ (forall st', o = Ok (Exhausted st') -> base_params st' = base_params st).
Proof.
  induction 1 as [ st Hge | st response reason st' delta Hlt HR
                 | st e delta Hlt HR
                 | st response reason st' delta o delta' Hlt HR HL IH ].
  - split; [constructor|]. intros st' Hst'. now inversion Hst'.
  - split; [exact (round_base_params _ _ _ HR) | discriminate].
  - split; [exact (round_base_params _ _ _ HR) | discriminate].
  - destruct (round_shape_config _ _ _ _ _ _ HR)
      as (_ & _ & _ & _ & Hbp & _).
    destruct IH as [IH1 IH2].
    cbn [base_params set_round_count] in IH1, IH2. rewrite Hbp in IH1, IH2.
    split; [|exact IH2].
    rewrite create_params_app. apply Forall_app.
    split; [exact (round_base_params _ _ _ HR) | exact IH1].
Qed.

(** C8: every LLM request of a query carries the same system prompt:
    [SYSTEM_PROMPT] alone when there is no history text ([None] or the
    empty string), and otherwise [SYSTEM_PROMPT], a blank line, the line
    [Previous conversation:] and the history. *)
Theorem system_prompt_of_every_request self query history tls tm mr :
  Forall
    (fun p => param_system (param_base p) = Some (system_content history))
    (create_params
       (snd (run (generate_response_with_rounds self query history tls tm
                    mr))))
  /\ system_content None = SYSTEM_PROMPT
  /\ system_content (Some EmptyString) = SYSTEM_PROMPT
  /\ (forall h, h <> EmptyString ->
        system_content (Some h)
        = (SYSTEM_PROMPT
           ++ String (ascii_of_nat 10) (String (ascii_of_nat 10)
                (append "Previous conversation:"
                   (String (ascii_of_nat 10) h))))%string).
Proof.
  split; [|repeat split].
  - pose proof (query_shape self query history tls tm mr) as HQ.
    set (st0 := initial_state self query history tls tm mr) in HQ.
    assert (Hbp : param_system (base_params st0)
                  = Some (system_content history)) by reflexivity.
    clearbody st0.
    name_run o tr.
    destruct HQ as [ response delta HL | e delta HL | st delta fo HL ];
      apply loop_base_params in HL; destruct HL as [HL1 HL2].
    + eapply Forall_impl; [|exact HL1]. cbn. now intros p ->.
    + eapply Forall_impl; [|exact HL1]. cbn. now intros p ->.
    + rewrite create_params_app. apply Forall_app. split.
      * eapply Forall_impl; [|exact HL1]. cbn. now intros p ->.
      * repeat constructor. cbn [final_params param_base].
        now rewrite (HL2 st eq_refl).
  - intros h Hh. destruct h as [|c h]; [contradiction | reflexivity].
Qed.

(** ** The two entry points *)

(** C9: [generate_response] is [generate_response_with_rounds] with
    [max_rounds = 2]: from every point of an interaction both give the same
    answer (or exception) and the same trace of LLM requests and tool
    calls. *)
Theorem generate_response_is_two_rounds self query history tls tm :
  (forall tr0,
     generate_response self query history tls tm tr0
     = generate_response_with_rounds self query history tls tm 2 tr0)
  /\ fst (run (generate_response self query history tls tm))
     = fst (run (generate_response_with_rounds self query history tls tm 2))
  /\ snd (run (generate_response self query history tls tm))
     = snd (run (generate_response_with_rounds self query history tls tm 2)).
Proof. repeat split. Qed.

(** The call after the loop is made when there is no round to run. *)
Lemma fallback_without_rounds :
  create_sites
    (snd (run (generate_response_with_rounds direct_generator "What is 2+2?"
                 None example_tools example_tool_manager 0)))
  = [FallbackCall]
  /\ fst (run (generate_response_with_rounds direct_generator "What is 2+2?"
                 None example_tools example_tool_manager 0))
     = Ok "Direct answer without tools".
Proof. split; reflexivity. Qed.

(** ** Termination *)

(** Any fuel from [max_rounds] on gives the result of
    [generate_response_with_rounds], which is an answer or an exception. *)
Lemma generate_response_with_rounds_total fuel self query history tls tm mr :
  (Z.to_nat mr <= fuel)%nat ->
  fst (run (generate_response_with_rounds_fuel fuel self query history tls tm
              mr)) <> OutOfFuel.
Proof.
  intros Hfuel.
  destruct (query_shape_fuel fuel self query history tls tm mr Hfuel)
    as (o & tr & Hrun & HQ).
  rewrite Hrun. cbn [fst].
  destruct HQ as [ response delta HL | e delta HL | st delta fo HL ];
    try discriminate.
  apply llm_text_fuel.
Qed.

Lemma rounds_loop_more_fuel self :
  forall fuel fuel' st tr0,
    (fuel <= fuel')%nat ->
    fst (rounds_loop fuel self st tr0) <> OutOfFuel ->
    rounds_loop fuel' self st tr0 = rounds_loop fuel self st tr0.
Proof.
  induction fuel as [|fuel IH]; intros fuel' st tr0 Hle Hok.
  - destruct fuel'; cbn [rounds_loop] in *;
      destruct (round_count st <? max_rounds st)%Z; try reflexivity;
      now cbn in Hok.
  - destruct fuel' as [|fuel']; [lia|].
    cbn [rounds_loop] in *.
    destruct (round_count st <? max_rounds st)%Z; [|reflexivity].
    unfold bind in *.
    destruct (_execute_single_round self st tr0) as [[[[[resp sc] reason] st']
                                                     | e | ] tr1];
      try reflexivity.
    destruct sc; cbn [negb] in *; [|reflexivity].
    apply IH; [lia | exact Hok].
Qed.

Lemma generate_response_with_rounds_fuel_enough fuel self query history tls
    tm mr :
  (Z.to_nat mr <= fuel)%nat ->
  run (generate_response_with_rounds_fuel fuel self query history tls tm mr)
  = run (generate_response_with_rounds self query history tls tm mr).
Proof.
  intros Hfuel. unfold run, generate_response_with_rounds,
    generate_response_with_rounds_fuel, bind.
  rewrite (rounds_loop_more_fuel self (Z.to_nat mr) fuel); [reflexivity|lia|].
  destruct (loop_shape self (Z.to_nat mr)
              (initial_state self query history tls tm mr) [])
    as (o & delta & Hrun & HL).
  { cbn [initial_state max_rounds round_count]. now rewrite Z.sub_0_r. }
  rewrite Hrun. cbn [fst]. intros ->. now apply loop_shape_fuel in HL.
Qed.

(** * Further properties of the engine *)

(** ** The sequence of call sites *)

Lemma loop_sites st o delta :
  LoopShape st o delta ->
  round_count st < max_rounds st ->
  exists k : nat,
    (1 <= k)%nat
    /\ Z.of_nat k <= max_rounds st - round_count st
    /\ (create_sites delta = repeat RoundCall k
        \/ create_sites delta = repeat RoundCall k ++ [RoundFinalCall]).
Proof.
  induction 1 as [ st Hge | st response reason st' delta Hlt HR
                 | st e delta Hlt HR
                 | st response reason st' delta o delta' Hlt HR HL IH ];
    intros Hlt'.
  - lia.
  - exists 1%nat. split; [lia|]. split; [lia|].
    destruct (round_sites _ _ _ HR) as [-> | ->]; [left | right]; reflexivity.
  - exists 1%nat. split; [lia|]. split; [lia|].
    destruct (round_sites _ _ _ HR) as [-> | ->]; [left | right]; reflexivity.
  - destruct (round_shape_config _ _ _ _ _ _ HR) as (Hrc & Hmr & _).
    pose proof (round_shape_continue _ _ _ _ _ HR) as Hbefore.
    destruct IH as (k & Hk1 & Hk2 & Hsites).
    { cbn [max_rounds round_count set_round_count]. lia. }
    cbn [max_rounds round_count set_round_count] in Hk2.
    exists (S k). split; [lia|]. split; [lia|].
    rewrite create_sites_app, (round_sites_continue _ _ _ _ _ HR).
    destruct Hsites as [-> | ->]; [left | right]; reflexivity.
Qed.

(** X1: for [max_rounds >= 1] the LLM requests of a query are [k] round
    calls, [1 <= k <= max_rounds], followed by at most one call without
    tools after the tools of the last of these rounds. *)
Theorem call_sites_of_a_query self query history tls tm mr :
  1 <= mr ->
  exists k : nat,
    (1 <= k)%nat /\ Z.of_nat k <= mr
    /\ (create_sites
          (snd (run (generate_response_with_rounds self query history tls tm
                       mr)))
        = repeat RoundCall k
        \/ create_sites
             (snd (run (generate_response_with_rounds self query history tls
                          tm mr)))
           = repeat RoundCall k ++ [RoundFinalCall]).
Proof.
  intros Hmr.
  pose proof (query_shape self query history tls tm mr) as HQ.
  set (st0 := initial_state self query history tls tm mr) in HQ.
  assert (H0 : round_count st0 = 0 /\ max_rounds st0 = mr)
    by (split; reflexivity).
  destruct H0 as [Hrc Hmax]. clearbody st0. name_run o tr.
  destruct HQ as [ response delta HL | e delta HL | st delta fo HL ].
  - destruct (loop_sites _ _ _ HL) as (k & Hk1 & Hk2 & Hs); [lia|].
    exists k. repeat split; [exact Hk1 | lia | exact Hs].
  - destruct (loop_sites _ _ _ HL) as (k & Hk1 & Hk2 & Hs); [lia|].
    exists k. repeat split; [exact Hk1 | lia | exact Hs].
  - apply loop_exits_inside in HL; [|lia]. destruct HL as [HL _].
    discriminate HL.
Qed.

Lemma call_sites_of_a_query_witness :
  1 <= 2
  /\ exists k : nat,
       (1 <= k)%nat /\ Z.of_nat k <= 2
       /\ (create_sites
             (snd (run (generate_response_with_rounds example_generator
                          "Complex query requiring multiple searches" None
                          example_tools example_tool_manager 2)))
           = repeat RoundCall k
           \/ create_sites
                (snd (run (generate_response_with_rounds example_generator
                             "Complex query requiring multiple searches" None
                             example_tools example_tool_manager 2)))
              = repeat RoundCall k ++ [RoundFinalCall]).
Proof.
  assert (H : 1 <= 2) by lia.
  split; [exact H|].
  exact (call_sites_of_a_query example_generator
           "Complex query requiring multiple searches" None example_tools
           example_tool_manager 2 H).
Defined.

(** ** No round to run *)

(** X2: with [max_rounds <= 0] the loop is not entered: the query is one
    request without tools, whatever [tools] and [tool_manager] are, no tool
    is called, and the outcome is the text of the response, or the
    exception of the request, which nothing catches. *)
Theorem no_round_single_fallback_call self query history tls tm mr :
  mr <= 0 ->
  let p :=
    mkApiParams
      (with_system (self_base_params self) (system_content history))
      [mkMessage user (ContentStr query)] None None in
  run (generate_response_with_rounds self query history tls tm mr)
  = (llm_text (self_client self [] p),
     [EvCreate FallbackCall 0 p (self_client self [] p)]).
Proof.
  intros Hmr. cbv zeta.
  unfold run, generate_response_with_rounds,
    generate_response_with_rounds_fuel, bind.
  assert (Hloop : forall fuel,
            rounds_loop fuel self
              (initial_state self query history tls tm mr) []
            = (Ok (Exhausted (initial_state self query history tls tm mr)),
               [])).
  { intros [|fuel]; cbn [rounds_loop initial_state round_count max_rounds];
      destruct (0 <? mr)%Z eqn:Hlt; try reflexivity;
      apply Z.ltb_lt in Hlt; lia. }
  rewrite Hloop. unfold messages_create, content0_text.
  cbn [initial_state final_params round_count base_params messages app].
  destruct (self_client self [] _); reflexivity.
Qed.

Lemma no_round_single_fallback_call_witness :
  0 <= 0
  /\ fst (run (generate_response_with_rounds (overloaded_generator [])
                 "test query" None example_tools example_tool_manager 0))
     = Raise (mkExn "APIError" "overloaded").
Proof.
  assert (H : 0 <= 0) by lia.
  split; [exact H|].
  exact (f_equal fst
           (no_round_single_fallback_call (overloaded_generator [])
              "test query" None example_tools example_tool_manager 0 H)).
Defined.

(** ** Without a tool manager, without tools *)

Lemma loop_without_tool_manager st o delta :
  LoopShape st o delta ->
  tool_manager st = None ->
  round_count st < max_rounds st ->
  exists out,
    delta = [EvCreate RoundCall (round_count st) (round_params st) out]
    /\ o = outcome_map Returned
             (match out with
              | LLMResponse r => first_text r
              | LLMRaise e =>
                  Ok ("Error generating response: " ++ exn_str e)%string
              end).
Proof.
  intros HL Htm Hlt.
  destruct HL as [ st Hge | st response reason st' delta Hlt' HR
                 | st e delta Hlt' HR
                 | st response reason st' delta o delta' Hlt' HR HL ].
  - lia.
  - inversion HR as [ e | r Hc Ho | r res d Hs Ht HT
                    | r res d fo Hs Ht HT Hsc Ho | r res d Hs Ht HT Hsc ];
      subst; try (rewrite Htm in Ht; discriminate Ht).
    + eexists. split; reflexivity.
    + eexists. split; [reflexivity|]. cbn.
      apply outcome_map_ok in Ho.
      destruct Ho as (t & -> & Ho). now inversion Ho.
  - inversion HR as [ e' | r Hc Ho | r res d Hs Ht HT
                    | r res d fo Hs Ht HT Hsc Ho | r res d Hs Ht HT Hsc ];
      subst; try (rewrite Htm in Ht; discriminate Ht).
    eexists. split; [reflexivity|]. cbn.
    apply outcome_map_raise in Ho. now rewrite Ho.
  - inversion HR as [ e' | r Hc Ho | r res d Hs Ht HT
                    | r res d fo Hs Ht HT Hsc Ho | r res d Hs Ht HT Hsc ];
      subst; try (rewrite Htm in Ht; discriminate Ht).
    apply outcome_map_ok in Ho. destruct Ho as (t & _ & Ho). inversion Ho.
Qed.

(** X3: without a tool manager a query is exactly one LLM request, sent
    without tool definitions even when [tools] is given, and no tool is
    called; a response that stops for tool use is answered like any other,
    by its [content[0].text]. *)
Theorem no_tool_manager_single_request self query history tls mr :
  exists site out,
    let p :=
      mkApiParams
        (with_system (self_base_params self) (system_content history))
        [mkMessage user (ContentStr query)] None None in
    snd (run (generate_response_with_rounds self query history tls None mr))
    = [EvCreate site 0 p out]
    /\ (forall r, out = LLMResponse r ->
          fst (run (generate_response_with_rounds self query history tls None
                      mr))
          = first_text r).
Proof.
  destruct (Z.le_gt_cases mr 0) as [Hmr | Hmr].
  - pose proof (no_round_single_fallback_call self query history tls None mr
                  Hmr) as Hrun.
    cbv zeta in Hrun. rewrite Hrun. cbn [fst snd].
    eexists _, _. split; [reflexivity|]. intros r ->. reflexivity.
  - pose proof (query_shape self query history tls None mr) as HQ.
    assert (Hp : round_params (initial_state self query history tls None mr)
                 = mkApiParams
                     (with_system (self_base_params self)
                        (system_content history))
                     [mkMessage user (ContentStr query)] None None).
    { unfold round_params. cbn [initial_state tools tool_manager truthy_obj].
      rewrite andb_false_r. reflexivity. }
    set (st0 := initial_state self query history tls None mr) in *.
    assert (H0 : round_count st0 = 0 /\ max_rounds st0 = mr
                 /\ tool_manager st0 = None) by (repeat split).
    destruct H0 as (Hrc & Hmax & Htm). clearbody st0. name_run o tr.
    destruct HQ as [ response delta HL | e delta HL | st delta fo HL ].
    + destruct (loop_without_tool_manager _ _ _ HL Htm) as (out & -> & Ho);
        [lia|].
      rewrite Hrc, Hp. exists RoundCall, out. split; [reflexivity|].
      intros r ->. destruct (first_text r); cbn in Ho; congruence.
    + destruct (loop_without_tool_manager _ _ _ HL Htm) as (out & -> & Ho);
        [lia|].
      rewrite Hrc, Hp. exists RoundCall, out. split; [reflexivity|].
      intros r ->. destruct (first_text r); cbn in Ho; congruence.
    + apply loop_exits_inside in HL; [|lia]. destruct HL as [HL _].
      discriminate HL.
Qed.

Lemma should_continue_without_tools st :
  truthy_list (tools st) = false -> fst (_should_continue_rounds st) = false.
Proof.
  intros Ht. unfold _should_continue_rounds. rewrite Ht.
  destruct (round_count st >=? max_rounds st - 1)%Z; reflexivity.
Qed.

Lemma loop_without_tools st o delta :
  LoopShape st o delta ->
  truthy_list (tools st) = false ->
  (llm_calls delta + Z.to_nat (fallback_due o) <= 2)%nat.
Proof.
  intros HL Ht. unfold llm_calls.
  destruct HL as [ st Hge | st response reason st' delta Hlt' HR
                 | st e delta Hlt' HR
                 | st response reason st' delta o delta' Hlt' HR HL ].
  - cbn. lia.
  - destruct (round_sites _ _ _ HR) as [-> | ->]; cbn; lia.
  - destruct (round_sites _ _ _ HR) as [-> | ->]; cbn; lia.
  - exfalso.
    inversion HR as [ e' | r Hc Ho | r res d Hs Htm HT
                    | r res d fo Hs Htm HT Hsc Ho | r res d Hs Htm HT Hsc ];
      subst.
    + apply outcome_map_ok in Ho. destruct Ho as (t & _ & Ho). inversion Ho.
    + apply outcome_map_ok in Ho. destruct Ho as (t & _ & Ho). inversion Ho.
    + rewrite (should_continue_without_tools _ Ht) in Hsc. discriminate Hsc.
Qed.

(** X7: when [tools] is [None] or empty, a query makes at most two LLM
    requests, whatever [max_rounds] is: a round that ran tools is not
    followed by another round ([_should_continue_rounds] answers
    ["no_tools_available"]). *)
Theorem without_tools_at_most_two_requests self query history tls tm mr :
  truthy_list tls = false ->
  (llm_calls
     (snd (run (generate_response_with_rounds self query history tls tm mr)))
   <= 2)%nat.
Proof.
  intros Ht.
  pose proof (query_shape self query history tls tm mr) as HQ.
  set (st0 := initial_state self query history tls tm mr) in HQ.
  assert (H0 : tools st0 = tls) by reflexivity.
  clearbody st0. name_run o tr. subst tls.
  destruct HQ as [ response delta HL | e delta HL | st delta fo HL ];
    apply loop_without_tools in HL; try exact Ht; cbn [fallback_due] in HL.
  - lia.
  - lia.
  - unfold llm_calls in *. rewrite create_sites_app, length_app.
    cbn [create_sites List.length] in *. lia.
Qed.

Lemma without_tools_at_most_two_requests_witness :
  truthy_list (@None (list ToolDefinition)) = false
  /\ (llm_calls
        (snd (run (generate_response_with_rounds example_generator
                     "Complex query requiring multiple searches" None None
                     example_tool_manager 5)))
      <= 2)%nat.
Proof.
  assert (H : truthy_list (@None (list ToolDefinition)) = false)
    by reflexivity.
  split; [exact H|].
  exact (without_tools_at_most_two_requests example_generator
           "Complex query requiring multiple searches" None None
           example_tool_manager 5 H).
Defined.

(** ** A failing request of a round *)

Lemma round_call_not_round_raise ev :
  is_round_call ev = false -> is_round_raise ev = false.
Proof. destruct ev as [[| |] rc p [r | e] | rc n i o]; cbn; congruence. Qed.

Lemma tools_shape_no_round_raise rc uses ok res delta :
  ToolsShape rc uses ok res delta ->
  Forall (fun ev => is_round_raise ev = false) delta.
Proof.
  intros HT. eapply Forall_impl;
    [|exact (tools_shape_no_round_call _ _ _ _ _ HT)].
  apply round_call_not_round_raise.
Qed.

Lemma round_round_raise st o delta pre rc p e post :
  RoundShape st o delta ->
  delta = pre ++ EvCreate RoundCall rc p (LLMRaise e) :: post ->
  pre = [] /\ post = []
  /\ o = Ok (("Error generating response: " ++ exn_str e)%string, false,
             Some "api_error", st).
Proof.
  intros [ e' | r Hc | r res d Hs Ht HT | r res d fo Hs Ht HT Hsc
         | r res d Hs Ht HT Hsc ] Heq.
  - apply (head_unique is_round_raise) in Heq; [|constructor|reflexivity].
    destruct Heq as (-> & Heq & <-). inversion Heq. auto.
  - apply (head_unique is_round_raise) in Heq; [|constructor|reflexivity].
    destruct Heq as (_ & Heq & _). discriminate Heq.
  - apply (head_unique is_round_raise) in Heq;
      [|exact (tools_shape_no_round_raise _ _ _ _ _ HT)|reflexivity].
    destruct Heq as (_ & Heq & _). discriminate Heq.
  - apply (head_unique is_round_raise) in Heq; [|
      apply Forall_app; split;
        [exact (tools_shape_no_round_raise _ _ _ _ _ HT) | repeat constructor]
      | reflexivity].
    destruct Heq as (_ & Heq & _). discriminate Heq.
  - apply (head_unique is_round_raise) in Heq;
      [|exact (tools_shape_no_round_raise _ _ _ _ _ HT)|reflexivity].
    destruct Heq as (_ & Heq & _). discriminate Heq.
Qed.

Lemma round_continue_no_round_raise st response reason st' delta :
  RoundShape st (Ok (response, true, reason, st')) delta ->
  Forall (fun ev => is_round_raise ev = false) delta.
Proof.
  intros H.
  inversion H as [ e | r Hc Ho | r res d Hs Ht HT
                 | r res d fo Hs Ht HT Hsc Ho | r res d Hs Ht HT Hsc ]; subst.
  - apply outcome_map_ok in Ho. destruct Ho as (t & _ & Ho). inversion Ho.
  - apply outcome_map_ok in Ho. destruct Ho as (t & _ & Ho). inversion Ho.
  - constructor; [reflexivity|].
    exact (tools_shape_no_round_raise _ _ _ _ _ HT).
Qed.

Lemma loop_round_raise st o delta :
  LoopShape st o delta ->
  forall pre rc p e post,
    delta = pre ++ EvCreate RoundCall rc p (LLMRaise e) :: post ->
    post = []
    /\ o = Ok (Returned ("Error generating response: " ++ exn_str e)%string).
Proof.
  induction 1 as [ st Hge | st response reason st' delta Hlt HR
                 | st e' delta Hlt HR
                 | st response reason st' delta o delta' Hlt HR HL IH ];
    intros pre rc p e post Heq.
  - now destruct pre.
  - destruct (round_round_raise _ _ _ _ _ _ _ _ HR Heq) as (_ & -> & Ho).
    inversion Ho. auto.
  - destruct (round_round_raise _ _ _ _ _ _ _ _ HR Heq) as (_ & _ & Ho).
    discriminate Ho.
  - pose proof (round_continue_no_round_raise _ _ _ _ _ HR) as Hclean.
    destruct (split_after is_round_raise _ _ _ _ _ Heq Hclean eq_refl)
      as (pre' & -> & Heq').
    exact (IH _ _ _ _ _ Heq').
Qed.

(** X4: a request of a round that fails is not retried: it is the last
    event of the query, and the answer is ["Error generating response: "]
    followed by the text of the exception. *)
Theorem round_request_failure_is_final self query history tls tm mr pre rc p
    e post :
  snd (run (generate_response_with_rounds self query history tls tm mr))
  = pre ++ EvCreate RoundCall rc p (LLMRaise e) :: post ->
  post = []
  /\ fst (run (generate_response_with_rounds self query history tls tm mr))
     = Ok ("Error generating response: " ++ exn_str e)%string.
Proof.
  pose proof (query_shape self query history tls tm mr) as HQ.
  set (st0 := initial_state self query history tls tm mr) in HQ.
  clearbody st0. name_run o tr. intros Heq.
  destruct HQ as [ response delta HL | e' delta HL | st delta fo HL ].
  - destruct (loop_round_raise _ _ _ HL _ _ _ _ _ Heq) as [Hpost Ho].
    inversion Ho. auto.
  - destruct (loop_round_raise _ _ _ HL _ _ _ _ _ Heq) as [_ Ho].
    discriminate Ho.
  - destruct (split_before_last _ _ _ _ _ Heq) as (post' & _ & Heq');
      [discriminate|].
    destruct (loop_round_raise _ _ _ HL _ _ _ _ _ Heq') as [_ Ho].
    discriminate Ho.
Qed.

Lemma round_request_failure_witness :
  let st0 :=
    initial_state (overloaded_generator []) "test query" None example_tools
      example_tool_manager 2 in
  snd (run (generate_response_with_rounds (overloaded_generator [])
              "test query" None example_tools example_tool_manager 2))
  = [] ++ EvCreate RoundCall 0 (round_params st0)
            (LLMRaise (mkExn "APIError" "overloaded")) :: []
  /\ fst (run (generate_response_with_rounds (overloaded_generator [])
                 "test query" None example_tools example_tool_manager 2))
     = Ok "Error generating response: overloaded".
Proof.
  cbv zeta.
  assert (H : snd (run (generate_response_with_rounds
                          (overloaded_generator []) "test query" None
                          example_tools example_tool_manager 2))
              = [] ++ EvCreate RoundCall 0
                        (round_params
                           (initial_state (overloaded_generator [])
                              "test query" None example_tools
                              example_tool_manager 2))
                        (LLMRaise (mkExn "APIError" "overloaded")) :: [])
    by (vm_compute; reflexivity).
  split; [exact H|].
  exact (proj2 (round_request_failure_is_final _ _ _ _ _ _ _ _ _ _ _ H)).
Defined.

(** ** The outcome and the last external call *)

Lemma outcome_map_answer (o : Outcome string) reason st :
  outcome_map (fun x : RoundResult => fst (fst (fst x)))
    (outcome_map (fun t => (t, false, reason, st)) o)
  = o.
Proof. destruct o; reflexivity. Qed.

Lemma round_last_event st o delta :
  RoundShape st o delta ->
  (forall response reason st', o <> Ok (response, true, reason, st')) ->
  exists pre last,
    delta = pre ++ [last]
    /\ outcome_of_last last
       = Some (outcome_map (fun x : RoundResult => fst (fst (fst x))) o).
Proof.
  intros [ e | r Hc | r res d Hs Ht HT | r res d fo Hs Ht HT Hsc
         | r res d Hs Ht HT Hsc ] Hstop.
  - exists [], (EvCreate RoundCall (round_count st) (round_params st)
                  (LLMRaise e)).
    split; reflexivity.
  - exists [], (EvCreate RoundCall (round_count st) (round_params st)
                  (LLMResponse r)).
    split; [reflexivity|]. cbn [outcome_of_last].
    now rewrite outcome_map_answer.
  - inversion HT as [|done id name input rest outs e Huses Hlen]; subst.
    eexists (_ :: _), _. split; [rewrite app_comm_cons; reflexivity|].
    reflexivity.
  - eexists (_ :: _), _. split; [rewrite app_comm_cons; reflexivity|].
    cbn [outcome_of_last]. now rewrite outcome_map_answer.
  - exfalso. eapply Hstop. reflexivity.
Qed.

Lemma loop_last_event st o delta :
  LoopShape st o delta ->
  round_count st < max_rounds st ->
  exists pre last,
    delta = pre ++ [last]
    /\ (forall s, o = Ok (Returned s) -> outcome_of_last last = Some (Ok s))
    /\ (forall e, o = Raise e -> outcome_of_last last = Some (Raise e)).
Proof.
  induction 1 as [ st Hge | st response reason st' delta Hlt HR
                 | st e' delta Hlt HR
                 | st response reason st' delta o delta' Hlt HR HL IH ];
    intros Hlt'.
  - lia.
  - destruct (round_last_event _ _ _ HR) as (pre & last & -> & Hlast);
      [discriminate|].
    exists pre, last. split; [reflexivity|]. split.
    + intros s Hs. inversion Hs; subst. exact Hlast.
    + discriminate.
  - destruct (round_last_event _ _ _ HR) as (pre & last & -> & Hlast);
      [discriminate|].
    exists pre, last. split; [reflexivity|]. split.
    + discriminate.
    + intros e He. inversion He; subst. exact Hlast.
  - destruct (round_shape_config _ _ _ _ _ _ HR) as (Hrc & Hmr & _).
    pose proof (round_shape_continue _ _ _ _ _ HR) as Hbefore.
    destruct IH as (pre & last & -> & Hs & He).
    { cbn [max_rounds round_count set_round_count]. lia. }
    exists (delta ++ pre), last. rewrite app_assoc. auto.
Qed.

Lemma query_last_event self query history tls tm mr :
  exists pre last,
    snd (run (generate_response_with_rounds self query history tls tm mr))
    = pre ++ [last]
    /\ outcome_of_last last
       = Some (fst (run (generate_response_with_rounds self query history
                           tls tm mr))).
Proof.
  pose proof (query_shape self query history tls tm mr) as HQ.
  pose proof (generate_response_with_rounds_total (Z.to_nat mr) self query
                history tls tm mr (Nat.le_refl _)) as Htotal.
  change (generate_response_with_rounds_fuel (Z.to_nat mr) self query history
            tls tm mr)
    with (generate_response_with_rounds self query history tls tm mr)
    in Htotal.
  set (st0 := initial_state self query history tls tm mr) in HQ.
  assert (H0 : round_count st0 = 0 /\ max_rounds st0 = mr)
    by (split; reflexivity).
  destruct H0 as [Hrc Hmax]. clearbody st0. name_run o tr.
  destruct HQ as [ response delta HL | e delta HL | st delta fo HL ].
  - destruct (Z.le_gt_cases mr 0) as [Hmr | Hmr].
    + inversion HL as [ | ? ? ? ? ? Hlt | | ? ? ? ? ? ? ? Hlt ]; subst; lia.
    + destruct (loop_last_event _ _ _ HL) as (pre & last & -> & Hs & _);
        [lia|].
      exists pre, last. split; [reflexivity | now apply Hs].
  - destruct (Z.le_gt_cases mr 0) as [Hmr | Hmr].
    + inversion HL as [ | | ? ? ? Hlt | ? ? ? ? ? ? ? Hlt ]; subst; lia.
    + destruct (loop_last_event _ _ _ HL) as (pre & last & -> & _ & He);
        [lia|].
      exists pre, last. split; [reflexivity | now apply He].
  - exists delta, (EvCreate FallbackCall (round_count st) (final_params st)
                     fo).
    split; reflexivity.
Qed.

(** X14: a query always ends with an external call, and that call decides
    the outcome: a failed request of a round gives the error string, a
    response to it its [content[0].text], a request without tools the text
    of its response or its exception, a failing tool call
    ["Tool execution failed"]; a query never ends on a successful tool
    call. *)
Theorem outcome_decided_by_last_call self query history tls tm mr :
  exists pre last,
    snd (run (generate_response_with_rounds self query history tls tm mr))
    = pre ++ [last]
    /\ outcome_of_last last
       = Some (fst (run (generate_response_with_rounds self query history
                           tls tm mr))).
Proof. apply query_last_event. Qed.

(** X15: an exception leaves [generate_response_with_rounds] only from the
    last call of the query, which then is a request: either a request
    without tools (after the tools of a round, or after the loop) that
    raised this exception, or a response whose [content[0].text] raises
    it. *)
Theorem exception_only_from_last_request self query history tls tm mr e :
  fst (run (generate_response_with_rounds self query history tls tm mr))
  = Raise e ->
  exists pre site rc p out,
    snd (run (generate_response_with_rounds self query history tls tm mr))
    = pre ++ [EvCreate site rc p out]
    /\ ((site <> RoundCall /\ out = LLMRaise e)
        \/ (exists r, out = LLMResponse r /\ first_text r = Raise e)).
Proof.
  intros Hraise.
  destruct (query_last_event self query history tls tm mr)
    as (pre & last & Htr & Hlast).
  rewrite Hraise in Hlast.
  destruct last as [site rc p out | rc name input out].
  - exists pre, site, rc, p, out. split; [exact Htr|].
    destruct site, out as [r | e']; cbn in Hlast; injection Hlast as Hl;
      try discriminate Hl;
      try (right; exists r; split; [reflexivity | exact Hl]);
      try (left; split; [discriminate | now rewrite Hl]).
  - destruct out; cbn in Hlast; discriminate Hlast.
Qed.

Lemma exception_only_from_last_request_witness :
  fst (run (generate_response_with_rounds
              (overloaded_generator [LLMResponse tool_use_response_1])
              "test query" None example_tools example_tool_manager 1))
  = Raise (mkExn "APIError" "overloaded")
  /\ exists pre site rc p out,
       snd (run (generate_response_with_rounds
                   (overloaded_generator [LLMResponse tool_use_response_1])
                   "test query" None example_tools example_tool_manager 1))
       = pre ++ [EvCreate site rc p out]
       /\ ((site <> RoundCall
            /\ out = LLMRaise (mkExn "APIError" "overloaded"))
           \/ (exists r, out = LLMResponse r
                         /\ first_text r
                            = Raise (mkExn "APIError" "overloaded"))).
Proof.
  assert (H : fst (run (generate_response_with_rounds
                          (overloaded_generator
                             [LLMResponse tool_use_response_1])
                          "test query" None example_tools
                          example_tool_manager 1))
              = Raise (mkExn "APIError" "overloaded")) by reflexivity.
  split; [exact H|].
  exact (exception_only_from_last_request _ _ _ _ _ _ _ H).
Defined.

(** ** Tool definitions and sampling parameters of the requests *)

Lemma create_requests_app tr1 tr2 :
  create_requests (tr1 ++ tr2) = create_requests tr1 ++ create_requests tr2.
Proof.
  induction tr1 as [|[site rc p o | rc n i o] tr1 IH]; cbn; congruence.
Qed.

Lemma tools_shape_requests rc uses ok res delta :
  ToolsShape rc uses ok res delta -> create_requests delta = [].
Proof.
  assert (Hok : forall l, create_requests (map (ok_event rc) l) = []).
  { induction l as [|[[[id name] input] out] l IH];
      [reflexivity | exact IH]. }
  intros [outs Hlen | done id name input rest outs e Huses Hlen].
  - apply Hok.
  - now rewrite create_requests_app, Hok.
Qed.

Lemma round_params_tools st :
  (param_tools (round_params st), param_tool_choice (round_params st))
  = expected_tools (tools st) (tool_manager st) RoundCall.
Proof.
  unfold round_params, expected_tools.
  destruct (truthy_list (tools st) && truthy_obj (tool_manager st));
    reflexivity.
Qed.

Lemma round_requests st o delta :
  RoundShape st o delta ->
  Forall (carries_expected_tools (tools st) (tool_manager st))
    (create_requests delta).
Proof.
  intros [ e | r Hc | r res d Hs Ht HT | r res d fo Hs Ht HT Hsc
         | r res d Hs Ht HT Hsc ]; cbn [create_requests];
    try rewrite create_requests_app;
    try rewrite (tools_shape_requests _ _ _ _ _ HT);
    cbn [create_requests app];
    repeat constructor; try apply round_params_tools.
Qed.

Lemma loop_requests st o delta :
  LoopShape st o delta ->
  Forall (carries_expected_tools (tools st) (tool_manager st))
    (create_requests delta).
Proof.
  induction 1 as [ st Hge | st response reason st' delta Hlt HR
                 | st e delta Hlt HR
                 | st response reason st' delta o delta' Hlt HR HL IH ].
  - constructor.
  - exact (round_requests _ _ _ HR).
  - exact (round_requests _ _ _ HR).
  - destruct (round_shape_config _ _ _ _ _ _ HR)
      as (_ & _ & Htools & Htm & _).
    cbn [tools tool_manager set_round_count] in IH.
    rewrite Htools, Htm in IH.
    rewrite create_requests_app. apply Forall_app.
    split; [exact (round_requests _ _ _ HR) | exact IH].
Qed.

(** X5: the request of a round carries the tool definitions and the
    ["auto"] tool choice exactly when [tools] is non-empty and a tool
    manager is given, and neither of them otherwise; a request made after the
    tools of a round or after the loop never carries them. *)
Theorem tools_offered_only_by_round_calls self query history tls tm mr :
  Forall
    (fun sp : CallSite * ApiParams =>
       (param_tools (snd sp), param_tool_choice (snd sp))
       = match fst sp with
         | RoundCall =>
             if truthy_list tls && truthy_obj tm then (tls, Some "auto")
             else (None, None)
         | _ => (None, None)
         end)
    (create_requests
       (snd (run (generate_response_with_rounds self query history tls tm
                    mr)))).
Proof.
  pose proof (query_shape self query history tls tm mr) as HQ.
  set (st0 := initial_state self query history tls tm mr) in HQ.
  assert (H0 : tools st0 = tls /\ tool_manager st0 = tm)
    by (split; reflexivity).
  destruct H0 as [Htools Htm]. clearbody st0. name_run o tr. subst tls tm.
  destruct HQ as [ response delta HL | e delta HL | st delta fo HL ];
    apply loop_requests in HL.
  - exact HL.
  - exact HL.
  - rewrite create_requests_app. apply Forall_app.
    split; [exact HL | repeat constructor].
Qed.

(** X9: every request of a query made by a generator built by [__init__]
    carries the model it was built with, temperature [0], [max_tokens = 800]
    and the system prompt of the query. *)
Theorem requests_carry_init_parameters client model query history tls tm mr :
  Forall
    (fun p =>
       param_base p
       = mkBaseParams model 0 800 (Some (system_content history)))
    (create_params
       (snd (run (generate_response_with_rounds (new_AIGenerator client model)
                    query history tls tm mr)))).
Proof.
  pose proof (query_shape (new_AIGenerator client model) query history tls tm
                mr) as HQ.
  set (st0 := initial_state (new_AIGenerator client model) query history tls
                tm mr) in HQ.
  assert (Hbp : base_params st0
                = mkBaseParams model 0 800 (Some (system_content history)))
    by reflexivity.
  clearbody st0. name_run o tr.
  destruct HQ as [ response delta HL | e delta HL | st delta fo HL ];
    apply loop_base_params in HL; destruct HL as [HL1 HL2].
  - eapply Forall_impl; [|exact HL1]. cbn. now intros p ->.
  - eapply Forall_impl; [|exact HL1]. cbn. now intros p ->.
  - rewrite create_params_app. apply Forall_app. split.
    + eapply Forall_impl; [|exact HL1]. cbn. now intros p ->.
    + repeat constructor. cbn [final_params param_base].
      now rewrite (HL2 st eq_refl).
Qed.

(** ** The message log only grows *)

Lemma log_grows_weaken ms added ps :
  log_grows (ms ++ added) ps -> log_grows ms ps.
Proof.
  destruct ps as [|p ps]; [trivial|]. cbn.
  intros [(more & Hp) Hrest]. split; [|exact Hrest].
  exists (added ++ more). now rewrite Hp, app_assoc.
Qed.

Lemma log_grows_from ms l p l' :
  log_grows ms (l ++ p :: l') ->
  (exists added, param_messages p = ms ++ added)
  /\ log_grows (param_messages p) l'.
Proof.
  revert ms. induction l as [|q l IH]; intros ms; cbn.
  - trivial.
  - intros [(added & Hq) Hrest]. apply IH in Hrest.
    destruct Hrest as [(more & Hp) Hrest]. split; [|exact Hrest].
    exists (added ++ more). now rewrite Hp, Hq, app_assoc.
Qed.

Lemma messages_add_results st r res :
  exists added,
    messages (add_results (add_assistant st r) res) = messages st ++ added.
Proof.
  unfold add_results. destruct (nonempty res);
    cbn [messages set_messages add_assistant].
  - rewrite <- app_assoc. eexists. reflexivity.
  - eexists. reflexivity.
Qed.

Lemma round_log_grows st o delta :
  RoundShape st o delta ->
  log_grows (messages st) (create_params delta)
  /\ (forall response sc reason st',
        o = Ok (response, sc, reason, st') ->
        exists added, messages st' = messages st ++ added).
Proof.
  assert (Hself : exists added, messages st = messages st ++ added)
    by (exists []; now rewrite app_nil_r).
  intros [ e | r Hc | r res d Hs Ht HT | r res d fo Hs Ht HT Hsc
         | r res d Hs Ht HT Hsc ]; cbn [create_params];
    try rewrite create_params_app;
    try rewrite (tools_shape_params _ _ _ _ _ HT);
    cbn [create_params app log_grows]; rewrite round_params_messages.
  - split; [auto|]. intros ? ? ? ? H. inversion H; subst. assumption.
  - split; [auto|]. intros ? ? ? ? H. apply outcome_map_ok in H.
    destruct H as (t & _ & H). inversion H; subst. assumption.
  - split; [auto|]. intros ? ? ? ? H. inversion H; subst.
    unfold add_assistant. cbn [messages set_messages]. eexists. reflexivity.
  - split.
    + split; [exact Hself|]. split; [|exact I].
      cbn [final_params param_messages]. apply messages_add_results.
    + intros ? ? ? ? H. apply outcome_map_ok in H.
      destruct H as (t & _ & H). inversion H; subst.
      apply messages_add_results.
  - split; [auto|]. intros ? ? ? ? H. inversion H; subst.
    apply messages_add_results.
Qed.

Lemma loop_exhausted_at_start st st' delta :
  LoopShape st (Ok (Exhausted st')) delta ->
  delta = [] /\ st' = st /\ max_rounds st <= round_count st.
Proof.
  intros H. remember (Ok (Exhausted st')) as o eqn:Ho.
  induction H as [ st Hge | st response reason st1 delta Hlt HR
                 | st e delta Hlt HR
                 | st response reason st1 delta o delta' Hlt HR HL IH ];
    try discriminate Ho.
  - inversion Ho; subst. repeat split. exact Hge.
  - destruct (IH Ho) as (_ & _ & Hge).
    destruct (round_shape_config _ _ _ _ _ _ HR) as (Hrc & Hmr & _).
    pose proof (round_shape_continue _ _ _ _ _ HR) as Hbefore.
    cbn [max_rounds round_count set_round_count] in Hge. lia.
Qed.

Lemma loop_log_grows st o delta :
  LoopShape st o delta ->
  log_grows (messages st) (create_params delta).
Proof.
  induction 1 as [ st Hge | st response reason st' delta Hlt HR
                 | st e delta Hlt HR
                 | st response reason st' delta o delta' Hlt HR HL IH ].
  - exact I.
  - exact (proj1 (round_log_grows _ _ _ HR)).
  - exact (proj1 (round_log_grows _ _ _ HR)).
  - destruct (round_log_grows _ _ _ HR) as [Hgrow Hst].
    destruct (Hst _ _ _ _ eq_refl) as (added & Hadded).
    cbn [messages set_round_count] in IH. rewrite Hadded in IH.
    apply log_grows_weaken in IH.
    inversion HR as [ e | r Hc Ho | r res d Hs Ht HT
                    | r res d fo Hs Ht HT Hsc Ho | r res d Hs Ht HT Hsc ];
      subst.
    + apply outcome_map_ok in Ho. destruct Ho as (t & _ & Ho). inversion Ho.
    + apply outcome_map_ok in Ho. destruct Ho as (t & _ & Ho). inversion Ho.
    + cbn [create_params app]. rewrite create_params_app,
        (tools_shape_params _ _ _ _ _ HT). cbn [app log_grows].
      rewrite round_params_messages. split; [|exact IH].
      exists []. now rewrite app_nil_r.
Qed.

Lemma query_log_grows self query history tls tm mr :
  log_grows [mkMessage user (ContentStr query)]
    (create_params
       (snd (run (generate_response_with_rounds self query history tls tm
                    mr)))).
Proof.
  pose proof (query_shape self query history tls tm mr) as HQ.
  set (st0 := initial_state self query history tls tm mr) in HQ.
  assert (Hms : messages st0 = [mkMessage user (ContentStr query)])
    by reflexivity.
  clearbody st0. name_run o tr. rewrite <- Hms.
  destruct HQ as [ response delta HL | e delta HL | st delta fo HL ].
  - exact (loop_log_grows _ _ _ HL).
  - exact (loop_log_grows _ _ _ HL).
  - destruct (loop_exhausted_at_start _ _ _ HL) as (-> & -> & _).
    cbn. split; [|exact I]. exists []. now rewrite app_nil_r.
Qed.

(** X6: the message log is append-only over a query: the log of every
    request begins with the user's query, and of two requests of the same
    query the later one carries the log of the earlier one, extended. *)
Theorem message_log_append_only self query history tls tm mr :
  (forall p,
     In p (create_params
             (snd (run (generate_response_with_rounds self query history tls
                          tm mr)))) ->
     exists added,
       param_messages p = mkMessage user (ContentStr query) :: added)
  /\ (forall l1 p1 l2 p2 l3,
        create_params
          (snd (run (generate_response_with_rounds self query history tls tm
                       mr)))
        = l1 ++ p1 :: l2 ++ p2 :: l3 ->
        exists added, param_messages p2 = param_messages p1 ++ added).
Proof.
  pose proof (query_log_grows self query history tls tm mr) as Hgrow.
  split.
  - intros p Hin. apply in_split in Hin. destruct Hin as (l1 & l2 & Heq).
    rewrite Heq in Hgrow. apply log_grows_from in Hgrow.
    destruct Hgrow as [(added & Hp) _]. exists added. exact Hp.
  - intros l1 p1 l2 p2 l3 Heq. rewrite Heq in Hgrow.
    apply log_grows_from in Hgrow. destruct Hgrow as [_ Hgrow].
    apply log_grows_from in Hgrow. destruct Hgrow as [Hp2 _]. exact Hp2.
Qed.

(** ** Only requested tools are called *)

Lemma split_app (l1 l2 pre post : Trace) ev :
  l1 ++ l2 = pre ++ ev :: post ->
  (exists post1, l1 = pre ++ ev :: post1 /\ post = post1 ++ l2)
  \/ (exists pre2, pre = l1 ++ pre2 /\ l2 = pre2 ++ ev :: post).
Proof.
  revert pre. induction l1 as [|a l1 IH]; intros pre Heq.
  - right. exists pre. split; [reflexivity | exact Heq].
  - destruct pre as [|b pre]; cbn in Heq; inversion Heq; subst.
    + left. exists l1. split; reflexivity.
    + destruct (IH pre H1) as [(post1 & -> & ->) | (pre2 & -> & ->)].
      * left. exists post1. split; reflexivity.
      * right. exists pre2. split; reflexivity.
Qed.

Lemma ok_events_in rc l rc' name input out :
  In (EvExecuteTool rc' name input out) (map (ok_event rc) l) ->
  rc' = rc /\ exists id o, In ((id, name, input), o) l.
Proof.
  intros Hin. apply in_map_iff in Hin.
  destruct Hin as ([[[id n] i] o] & Heq & Hin). cbn in Heq.
  inversion Heq; subst. split; [reflexivity|]. eauto.
Qed.

Lemma tools_shape_in rc uses ok res delta rc' name input out :
  ToolsShape rc uses ok res delta ->
  In (EvExecuteTool rc' name input out) delta ->
  rc' = rc /\ exists id, In (id, name, input) uses.
Proof.
  intros [outs Hlen | done id name' input' rest outs e Huses Hlen] Hin.
  - apply ok_events_in in Hin. destruct Hin as (-> & id & o & Hin).
    split; [reflexivity|]. exists id. eapply in_combine_l. exact Hin.
  - apply in_app_or in Hin. destruct Hin as [Hin | [Hin | []]].
    + apply ok_events_in in Hin. destruct Hin as (-> & id' & o & Hin).
      split; [reflexivity|]. exists id'. rewrite Huses.
      apply in_or_app. left. eapply in_combine_l. exact Hin.
    + inversion Hin; subst. split; [reflexivity|]. exists id.
      apply in_or_app. right. left. reflexivity.
Qed.

Lemma round_dispatch_requested st o delta pre rc name input out post :
  RoundShape st o delta ->
  delta = pre ++ EvExecuteTool rc name input out :: post ->
  exists p r id,
    In (EvCreate RoundCall rc p (LLMResponse r)) pre
    /\ stop_reason r = "tool_use"
    /\ In (id, name, input) (tool_uses (response_content r)).
Proof.
  intros HR Heq.
  assert (Hin : In (EvExecuteTool rc name input out) delta)
    by (rewrite Heq; apply in_or_app; right; left; reflexivity).
  destruct HR as [ e | r Hc | r res d Hs Ht HT | r res d fo Hs Ht HT Hsc
                 | r res d Hs Ht HT Hsc ].
  - destruct Hin as [Hin | []]. discriminate Hin.
  - destruct Hin as [Hin | []]. discriminate Hin.
  - destruct Hin as [Hin | Hin]; [discriminate Hin|].
    destruct (tools_shape_in _ _ _ _ _ _ _ _ _ HT Hin) as (-> & id & Hid).
    destruct pre as [|b pre]; cbn in Heq; inversion Heq; subst.
    exists (round_params st), r, id. repeat split; auto. now left.
  - destruct Hin as [Hin | Hin]; [discriminate Hin|].
    apply in_app_or in Hin. destruct Hin as [Hin | [Hin | []]];
      [|discriminate Hin].
    destruct (tools_shape_in _ _ _ _ _ _ _ _ _ HT Hin) as (-> & id & Hid).
    destruct pre as [|b pre]; cbn in Heq; inversion Heq; subst.
    exists (round_params st), r, id. repeat split; auto. now left.
  - destruct Hin as [Hin | Hin]; [discriminate Hin|].
    destruct (tools_shape_in _ _ _ _ _ _ _ _ _ HT Hin) as (-> & id & Hid).
    destruct pre as [|b pre]; cbn in Heq; inversion Heq; subst.
    exists (round_params st), r, id. repeat split; auto. now left.
Qed.

Lemma loop_dispatch_requested st o delta :
  LoopShape st o delta ->
  forall pre rc name input out post,
    delta = pre ++ EvExecuteTool rc name input out :: post ->
    exists p r id,
      In (EvCreate RoundCall rc p (LLMResponse r)) pre
      /\ stop_reason r = "tool_use"
      /\ In (id, name, input) (tool_uses (response_content r)).
Proof.
  induction 1 as [ st Hge | st response reason st' delta Hlt HR
                 | st e delta Hlt HR
                 | st response reason st' delta o delta' Hlt HR HL IH ];
    intros pre rc name input out post Heq.
  - now destruct pre.
  - exact (round_dispatch_requested _ _ _ _ _ _ _ _ _ HR Heq).
  - exact (round_dispatch_requested _ _ _ _ _ _ _ _ _ HR Heq).
  - destruct (split_app _ _ _ _ _ Heq)
      as [(post1 & Heq1 & _) | (pre2 & -> & Heq2)].
    + exact (round_dispatch_requested _ _ _ _ _ _ _ _ _ HR Heq1).
    + destruct (IH _ _ _ _ _ _ Heq2) as (p & r & id & Hin & Hs & Hid).
      exists p, r, id. repeat split; auto. apply in_or_app. now right.
Qed.

(** X8: a tool is called only when the model asked for it: before every
    tool call of a query there is, at the same [round_count], a request of a
    round that was answered with [stop_reason = "tool_use"] by a response
    holding a tool-use block with the name and the input of the call. *)
Theorem only_requested_tools_are_called self query history tls tm mr pre rc
    name input out post :
  snd (run (generate_response_with_rounds self query history tls tm mr))
  = pre ++ EvExecuteTool rc name input out :: post ->
  exists p r id,
    In (EvCreate RoundCall rc p (LLMResponse r)) pre
    /\ stop_reason r = "tool_use"
    /\ In (id, name, input) (tool_uses (response_content r)).
Proof.
  pose proof (query_shape self query history tls tm mr) as HQ.
  set (st0 := initial_state self query history tls tm mr) in HQ.
  clearbody st0. name_run o tr. intros Heq.
  destruct HQ as [ response delta HL | e delta HL | st delta fo HL ].
  - exact (loop_dispatch_requested _ _ _ HL _ _ _ _ _ _ Heq).
  - exact (loop_dispatch_requested _ _ _ HL _ _ _ _ _ _ Heq).
  - destruct (split_before_last _ _ _ _ _ Heq) as (post' & _ & Heq');
      [discriminate|].
    exact (loop_dispatch_requested _ _ _ HL _ _ _ _ _ _ Heq').
Qed.

Lemma only_requested_tools_witness :
  let tr :=
    snd (run (generate_response_with_rounds example_generator
                "Complex query requiring multiple searches" None
                example_tools example_tool_manager 2)) in
  tr = firstn 3 tr
       ++ EvExecuteTool 1 "get_course_outline"
            [("course_name", PyStr "test")] (ToolOk "Result 2")
          :: skipn 4 tr
  /\ exists p r id,
       In (EvCreate RoundCall 1 p (LLMResponse r)) (firstn 3 tr)
       /\ stop_reason r = "tool_use"
       /\ In (id, "get_course_outline", [("course_name", PyStr "test")])
            (tool_uses (response_content r)).
Proof.
  cbv zeta.
  assert (H : snd (run (generate_response_with_rounds example_generator
                          "Complex query requiring multiple searches" None
                          example_tools example_tool_manager 2))
              = firstn 3
                  (snd (run (generate_response_with_rounds example_generator
                               "Complex query requiring multiple searches"
                               None example_tools example_tool_manager 2)))
                ++ EvExecuteTool 1 "get_course_outline"
                     [("course_name", PyStr "test")] (ToolOk "Result 2")
                   :: skipn 4
                        (snd (run (generate_response_with_rounds
                                     example_generator
                                     "Complex query requiring multiple searches"
                                     None example_tools example_tool_manager
                                     2))))
    by (vm_compute; reflexivity).
  split; [exact H|].
  exact (only_requested_tools_are_called _ _ _ _ _ _ _ _ _ _ _ _ H).
Defined.

(** ** From a round to the next *)

Lemma round_first_event st o delta :
  RoundShape st o delta ->
  exists out rest,
    delta = EvCreate RoundCall (round_count st) (round_params st) out :: rest.
Proof. intros []; eauto. Qed.

Lemma loop_first_event st o delta :
  LoopShape st o delta ->
  round_count st < max_rounds st ->
  exists out rest,
    delta = EvCreate RoundCall (round_count st) (round_params st) out :: rest.
Proof.
  intros [ st' Hge | st' response reason st1 d Hlt HR | st' e d Hlt HR
         | st' response reason st1 d o' d' Hlt HR HL ] Hlt'.
  - lia.
  - exact (round_first_event _ _ _ HR).
  - exact (round_first_event _ _ _ HR).
  - destruct (round_first_event _ _ _ HR) as (out & rest & ->).
    exists out, (rest ++ d'). reflexivity.
Qed.

Lemma should_continue_with_tools st :
  truthy_list (tools st) = true ->
  truthy_obj (tool_manager st) = true ->
  round_count st < max_rounds st - 1 ->
  fst (_should_continue_rounds st) = true.
Proof.
  intros Ht Htm Hlt. unfold _should_continue_rounds. rewrite Ht, Htm.
  destruct (round_count st >=? max_rounds st - 1)%Z eqn:Hge; [|reflexivity].
  rewrite Z.geb_leb in Hge. apply Z.leb_le in Hge. lia.
Qed.

(** The round of a tool-use response before the last allowed round, when
    tools are on offer and no tool call fails. *)
Lemma round_continues st o delta pre rc p r post :
  RoundShape st o delta ->
  delta = pre ++ EvCreate RoundCall rc p (LLMResponse r) :: post ->
  stop_reason r = "tool_use" ->
  truthy_list (tools st) = true ->
  truthy_obj (tool_manager st) = true ->
  round_count st < max_rounds st - 1 ->
  no_tool_raise post ->
  exists outs,
    List.length outs = List.length (tool_uses (response_content r))
    /\ pre = [] /\ rc = round_count st /\ p = round_params st
    /\ post = map (ok_event rc) (combine (tool_uses (response_content r)) outs)
    /\ o = Ok (EmptyString, true, None,
               add_results (add_assistant st r)
                 (map ok_block
                    (combine (tool_uses (response_content r)) outs))).
Proof.
  intros HR Heq Hstop Htools Htm Hlt Hclean.
  pose proof (should_continue_with_tools st Htools Htm Hlt) as Hcont.
  destruct HR as [ e | r' Hc | r' res d Hs Ht HT | r' res d fo Hs Ht HT Hsc
                 | r' res d Hs Ht HT Hsc ].
  - apply (head_unique is_round_call) in Heq; [|constructor|reflexivity].
    destruct Heq as (_ & Heq & _). discriminate Heq.
  - apply (head_unique is_round_call) in Heq; [|constructor|reflexivity].
    destruct Heq as (_ & Heq & _). inversion Heq; subst r'.
    rewrite Hstop, Htm in Hc. discriminate Hc.
  - apply (head_unique is_round_call) in Heq;
      [|exact (tools_shape_no_round_call _ _ _ _ _ HT)|reflexivity].
    destruct Heq as (_ & Heq & Hpost). subst d.
    inversion HT as [|done id name input rest outs e Huses Hlen]; subst.
    exfalso. eapply no_tool_raise_absurd; [exact Hclean | | ]; reflexivity.
  - rewrite Hcont in Hsc. discriminate Hsc.
  - apply (head_unique is_round_call) in Heq;
      [|exact (tools_shape_no_round_call _ _ _ _ _ HT)|reflexivity].
    destruct Heq as (Hpre & Heq & Hpost). inversion Heq; subst.
    inversion HT as [outs Hlen|]; subst.
    exists outs. repeat split; auto.
Qed.

Lemma loop_continues st o delta :
  LoopShape st o delta ->
  forall pre rc p r post,
    delta = pre ++ EvCreate RoundCall rc p (LLMResponse r) :: post ->
    stop_reason r = "tool_use" ->
    truthy_list (tools st) = true ->
    truthy_obj (tool_manager st) = true ->
    rc < max_rounds st - 1 ->
    no_tool_raise post ->
    exists outs out' post',
      List.length outs = List.length (tool_uses (response_content r))
      /\ post
         = map (ok_event rc) (combine (tool_uses (response_content r)) outs)
           ++ EvCreate RoundCall (rc + 1)
                (mkApiParams (param_base p)
                   (param_messages p ++ appended_messages r outs)
                   (tools st) (Some "auto"))
                out'
              :: post'.
Proof.
  induction 1 as [ st Hge | st response reason st' delta Hlt HR
                 | st e' delta Hlt HR
                 | st response reason st' delta o delta' Hlt HR HL IH ];
    intros pre rc p r post Heq Hstop Htools Htm Hrc Hclean.
  - now destruct pre.
  - exfalso.
    destruct (round_first_event _ _ _ HR) as (out & rest & Hd).
    pose proof (round_rounds _ _ _ HR) as Hrounds. rewrite Heq in Hrounds.
    apply Forall_app in Hrounds. destruct Hrounds as [_ Hrounds].
    inversion Hrounds as [|? ? Hk _]. cbn in Hk. subst rc.
    destruct (round_continues _ _ _ _ _ _ _ _ HR Heq Hstop Htools Htm Hrc
                Hclean) as (outs & _ & _ & _ & _ & _ & Ho).
    discriminate Ho.
  - exfalso.
    pose proof (round_rounds _ _ _ HR) as Hrounds. rewrite Heq in Hrounds.
    apply Forall_app in Hrounds. destruct Hrounds as [_ Hrounds].
    inversion Hrounds as [|? ? Hk _]. cbn in Hk. subst rc.
    destruct (round_continues _ _ _ _ _ _ _ _ HR Heq Hstop Htools Htm Hrc
                Hclean) as (outs & _ & _ & _ & _ & _ & Ho).
    discriminate Ho.
  - destruct (round_shape_config _ _ _ _ _ _ HR)
      as (Hrc' & Hmr & Htools' & Htm' & Hbp & _).
    pose proof (round_shape_continue _ _ _ _ _ HR) as Hbefore.
    destruct (split_app _ _ _ _ _ Heq)
      as [(post1 & Heq1 & Hpost) | (pre2 & -> & Heq2)].
    + pose proof (round_rounds _ _ _ HR) as Hrounds. rewrite Heq1 in Hrounds.
      apply Forall_app in Hrounds. destruct Hrounds as [_ Hrounds].
      inversion Hrounds as [|? ? Hk _]. cbn in Hk. subst rc.
      assert (Hclean1 : no_tool_raise post1).
      { rewrite Hpost in Hclean. apply Forall_app in Hclean. tauto. }
      destruct (round_continues _ _ _ _ _ _ _ _ HR Heq1 Hstop Htools Htm
                  Hbefore Hclean1)
        as (outs & Hlen & _ & _ & -> & Hpost1 & Ho).
      inversion Ho; subst st'.
      destruct (loop_first_event _ _ _ HL) as (out' & post' & Hd').
      { cbn [max_rounds round_count set_round_count]. lia. }
      exists outs, out', post'. split; [exact Hlen|].
      rewrite Hpost, Hpost1, Hd'. f_equal. f_equal.
      cbn [round_count set_round_count]. rewrite round_count_add_results.
      cbn [round_count add_assistant set_messages]. f_equal.
      unfold round_params at 1.
      cbn [tools tool_manager base_params messages set_round_count].
      destruct (same_config_add st r
                  (map ok_block
                     (combine (tool_uses (response_content r)) outs)))
        as (_ & _ & Ht1 & Ht2 & Ht3 & _).
      rewrite Ht1, Ht2, Ht3, Htools, Htm, messages_after_tools.
      cbn [andb]. now rewrite round_params_base, round_params_messages.
    + cbn [max_rounds tools tool_manager set_round_count] in IH.
      rewrite Hmr, Htools', Htm' in IH.
      exact (IH _ _ _ _ _ Heq2 Hstop Htools Htm Hrc Hclean).
Qed.

(** X16: when a round before the last allowed one
    ([round_count < max_rounds - 1]) is answered with a tool-use response,
    tools are on offer and no tool call fails, the tool calls of the round
    are followed by the request of the next round, at [round_count + 1]:
    it carries the log of the round's request extended by the messages of
    the round, and again the tool definitions and the ["auto"] choice. *)
Theorem tool_round_is_followed_by_next_round self query history tls tm mr pre
    rc p r post :
  snd (run (generate_response_with_rounds self query history tls tm mr))
  = pre ++ EvCreate RoundCall rc p (LLMResponse r) :: post ->
  stop_reason r = "tool_use" ->
  truthy_list tls = true ->
  truthy_obj tm = true ->
  rc < mr - 1 ->
  no_tool_raise post ->
  exists outs out' post',
    List.length outs = List.length (tool_uses (response_content r))
    /\ post
       = map (ok_event rc) (combine (tool_uses (response_content r)) outs)
         ++ EvCreate RoundCall (rc + 1)
              (mkApiParams (param_base p)
                 (param_messages p ++ appended_messages r outs) tls
                 (Some "auto"))
              out'
            :: post'.
Proof.
  pose proof (query_shape self query history tls tm mr) as HQ.
  set (st0 := initial_state self query history tls tm mr) in HQ.
  assert (H0 : max_rounds st0 = mr /\ tools st0 = tls
               /\ tool_manager st0 = tm) by (repeat split).
  destruct H0 as (Hmr & Htls & Htm0). clearbody st0. name_run o tr.
  intros Heq Hstop Htools Htm Hrc Hclean. subst mr tls tm.
  destruct HQ as [ response delta HL | e' delta HL | st delta fo HL ].
  - exact (loop_continues _ _ _ HL _ _ _ _ _ Heq Hstop Htools Htm Hrc Hclean).
  - exact (loop_continues _ _ _ HL _ _ _ _ _ Heq Hstop Htools Htm Hrc Hclean).
  - destruct (loop_exhausted_at_start _ _ _ HL) as (-> & _ & _).
    destruct pre as [|b pre]; cbn in Heq; inversion Heq.
    now destruct pre.
Qed.

Lemma tool_round_next_round_witness :
  let tr :=
    snd (run (generate_response_with_rounds example_generator
                "Complex query requiring multiple searches" None
                example_tools example_tool_manager 2)) in
  let p := nth 0 (create_params tr) (mkApiParams (mkBaseParams "m" 0 0 None)
                                       [] None None) in
  (tr = [] ++ EvCreate RoundCall 0 p (LLMResponse tool_use_response_1)
              :: skipn 1 tr
   /\ stop_reason tool_use_response_1 = "tool_use"
   /\ truthy_list example_tools = true
   /\ truthy_obj example_tool_manager = true
   /\ 0 < 2 - 1
   /\ no_tool_raise (skipn 1 tr))
  /\ exists outs out' post',
       List.length outs
       = List.length (tool_uses (response_content tool_use_response_1))
       /\ skipn 1 tr
          = map (ok_event 0)
              (combine (tool_uses (response_content tool_use_response_1))
                 outs)
            ++ EvCreate RoundCall (0 + 1)
                 (mkApiParams (param_base p)
                    (param_messages p
                     ++ appended_messages tool_use_response_1 outs)
                    example_tools (Some "auto"))
                 out'
               :: post'.
Proof.
  cbv zeta.
  set (tr := snd (run (generate_response_with_rounds example_generator
                         "Complex query requiring multiple searches" None
                         example_tools example_tool_manager 2))).
  set (p := nth 0 (create_params tr) _).
  assert (H1 : tr = [] ++ EvCreate RoundCall 0 p
                            (LLMResponse tool_use_response_1) :: skipn 1 tr)
    by (vm_compute; reflexivity).
  assert (H2 : stop_reason tool_use_response_1 = "tool_use") by reflexivity.
  assert (H3 : truthy_list example_tools = true) by reflexivity.
  assert (H4 : truthy_obj example_tool_manager = true) by reflexivity.
  assert (H5 : 0 < 2 - 1) by lia.
  assert (H6 : no_tool_raise (skipn 1 tr))
    by (vm_compute; repeat constructor).
  split; [repeat split; assumption|].
  exact (tool_round_is_followed_by_next_round example_generator
           "Complex query requiring multiple searches" None example_tools
           example_tool_manager 2 [] 0 p tool_use_response_1 (skipn 1 tr)
           H1 H2 H3 H4 H5 H6).
Defined.

(** ** The single-round handler *)

Lemma handle_tool_blocks_shape f rc blocks :
  forall acc tr0,
    (exists outs,
       List.length outs = List.length (tool_uses blocks)
       /\ handle_tool_blocks (Some f) rc blocks acc tr0
          = (Ok (acc ++ map ok_block (combine (tool_uses blocks) outs)),
             tr0 ++ map (ok_event rc) (combine (tool_uses blocks) outs)))
    \/ (exists done id name input rest outs e,
          tool_uses blocks = done ++ (id, name, input) :: rest
          /\ List.length outs = List.length done
          /\ handle_tool_blocks (Some f) rc blocks acc tr0
             = (Raise e,
                tr0 ++ map (ok_event rc) (combine done outs)
                ++ [EvExecuteTool rc name input (ToolRaise e)])).
Proof.
  induction blocks as [|b blocks IH]; intros acc tr0.
  - left. exists []. cbn. rewrite !app_nil_r. auto.
  - destruct b as [t | id name input]; cbn [handle_tool_blocks tool_uses].
    + apply IH.
    + unfold bind, execute_tool.
      destruct (f tr0 name input) as [s | e] eqn:Hf.
      * destruct (IH (acc ++ [ok_result id s])
                    (tr0 ++ [EvExecuteTool rc name input (ToolOk s)]))
          as [(outs & Hlen & Hrun)
             | (done & id' & name' & input' & rest & outs & e & Huses & Hlen
                & Hrun)];
          rewrite Hrun, <- !app_assoc; cbn [app].
        -- left. exists (s :: outs). cbn. split; [now rewrite Hlen|].
           reflexivity.
        -- right. exists ((id, name, input) :: done), id', name', input',
             rest, (s :: outs), e.
           cbn. split; [now rewrite Huses|]. split; [now rewrite Hlen|].
           reflexivity.
      * right. exists [], id, name, input, (tool_uses blocks), [], e.
        cbn. auto.
Qed.

(** What [_handle_tool_execution] does, given both keys and a tool
    manager. *)
Lemma handle_tool_execution_shape self site rc r ms sys f :
  let res :=
    run (_handle_tool_execution self site rc r
           (mkParamsDict (Some ms) (Some sys)) (Some f)) in
  (exists outs fo,
     List.length outs = List.length (tool_uses (response_content r))
     /\ snd res
        = map (ok_event rc) (combine (tool_uses (response_content r)) outs)
          ++ [EvCreate site rc
                (mkApiParams (with_system (self_base_params self) sys)
                   (ms ++ appended_messages r outs) None None)
                fo]
     /\ fst res = llm_text fo)
  \/ (exists done id name input rest outs e,
        tool_uses (response_content r) = done ++ (id, name, input) :: rest
        /\ List.length outs = List.length done
        /\ snd res
           = map (ok_event rc) (combine done outs)
             ++ [EvExecuteTool rc name input (ToolRaise e)]
        /\ fst res = Raise e).
Proof.
  cbv zeta. unfold run, _handle_tool_execution, bind.
  cbn [dict_messages dict_system].
  destruct (handle_tool_blocks_shape f rc (response_content r) [] [])
    as [(outs & Hlen & Hrun)
       | (done & id & name & input & rest & outs & e & Huses & Hlen & Hrun)];
    rewrite Hrun; cbn [app fst snd].
  - left. unfold messages_create, content0_text.
    set (p := mkApiParams _ _ None None).
    exists outs, (self_client self
                    (map (ok_event rc)
                       (combine (tool_uses (response_content r)) outs)) p).
    assert (Hp : p = mkApiParams (with_system (self_base_params self) sys)
                       (ms ++ appended_messages r outs) None None).
    { unfold p, appended_messages. cbv zeta.
      destruct (nonempty _); [rewrite <- app_assoc|]; reflexivity. }
    rewrite <- Hp. split; [exact Hlen|].
    destruct (self_client self _ p); split; reflexivity.
  - right. exists done, id, name, input, rest, outs, e. auto.
Qed.

(** X10: given its two keys and a tool manager, when no tool call fails
    [_handle_tool_execution] calls the tools of the response in order and
    then makes exactly one request, without tool definitions, for the
    messages it was given followed by the assistant's message and the
    combined result message, under the generator's parameters and the given
    system prompt; it returns the text of the response. *)
Theorem handler_single_final_request self site rc r ms sys f :
  no_tool_raise
    (snd (run (_handle_tool_execution self site rc r
                 (mkParamsDict (Some ms) (Some sys)) (Some f)))) ->
  exists outs fo,
    List.length outs = List.length (tool_uses (response_content r))
    /\ snd (run (_handle_tool_execution self site rc r
                   (mkParamsDict (Some ms) (Some sys)) (Some f)))
       = map (ok_event rc) (combine (tool_uses (response_content r)) outs)
         ++ [EvCreate site rc
               (mkApiParams (with_system (self_base_params self) sys)
                  (ms ++ appended_messages r outs) None None)
               fo]
    /\ fst (run (_handle_tool_execution self site rc r
                   (mkParamsDict (Some ms) (Some sys)) (Some f)))
       = llm_text fo.
Proof.
  intros Hclean.
  destruct (handle_tool_execution_shape self site rc r ms sys f)
    as [H | (done & id & name & input & rest & outs & e & _ & _ & Htr & _)].
  - exact H.
  - exfalso. eapply no_tool_raise_absurd; [exact Hclean|exact Htr|].
    reflexivity.
Qed.

(** X11: [_handle_tool_execution] has no handler for a failing tool: the
    exception of the tool leaves the method, the remaining tools are not
    called and no request is made, where the round of
    [generate_response_with_rounds] answers ["Tool execution failed"]. *)
Theorem handler_tool_failure_propagates self site rc r ms sys f pre rc' name
    input e post :
  snd (run (_handle_tool_execution self site rc r
              (mkParamsDict (Some ms) (Some sys)) (Some f)))
  = pre ++ EvExecuteTool rc' name input (ToolRaise e) :: post ->
  post = []
  /\ fst (run (_handle_tool_execution self site rc r
                 (mkParamsDict (Some ms) (Some sys)) (Some f)))
     = Raise e
  /\ llm_calls
       (snd (run (_handle_tool_execution self site rc r
                    (mkParamsDict (Some ms) (Some sys)) (Some f))))
     = 0%nat.
Proof.
  intros Heq.
  destruct (handle_tool_execution_shape self site rc r ms sys f)
    as [(outs & fo & _ & Htr & _)
       | (done & id & name' & input' & rest & outs & e' & _ & _ & Htr & Ho)].
  - exfalso. rewrite Htr in Heq.
    destruct (split_before_last _ _ _ _ _ Heq) as (post' & _ & Heq');
      [discriminate|].
    eapply no_tool_raise_absurd;
      [apply (ok_events_clean rc) | exact Heq' | reflexivity].
  - rewrite Htr in Heq |- *.
    destruct (split_after is_tool_raise _ _ _ _ _ Heq
                (ok_events_clean rc _) eq_refl) as (pre' & -> & Hlast).
    destruct pre' as [|x pre']; cbn in Hlast.
    + inversion Hlast; subst. repeat split; auto.
      unfold llm_calls. now rewrite create_sites_app, create_sites_ok_events.
    + inversion Hlast as [[Hx Hnil]]. destruct pre'; discriminate.
Qed.

Lemma handler_tool_failure_witness :
  snd (run (_handle_tool_execution example_generator RoundFinalCall 0
              tool_use_response_1
              (mkParamsDict (Some [mkMessage user (ContentStr "test query")])
                 (Some SYSTEM_PROMPT))
              always_failing_tool_manager))
  = [] ++ EvExecuteTool 0 "search_course_content"
            [("query", PyStr "first search")]
            (ToolRaise (mkExn "Exception" "Tool failed")) :: []
  /\ fst (run (_handle_tool_execution example_generator RoundFinalCall 0
                 tool_use_response_1
                 (mkParamsDict
                    (Some [mkMessage user (ContentStr "test query")])
                    (Some SYSTEM_PROMPT))
                 always_failing_tool_manager))
     = Raise (mkExn "Exception" "Tool failed").
Proof.
  assert (H : snd (run (_handle_tool_execution example_generator
                          RoundFinalCall 0 tool_use_response_1
                          (mkParamsDict
                             (Some [mkMessage user (ContentStr "test query")])
                             (Some SYSTEM_PROMPT))
                          always_failing_tool_manager))
              = [] ++ EvExecuteTool 0 "search_course_content"
                        [("query", PyStr "first search")]
                        (ToolRaise (mkExn "Exception" "Tool failed")) :: [])
    by (vm_compute; reflexivity).
  split; [exact H|].
  exact (proj1 (proj2
           (handler_tool_failure_propagates example_generator RoundFinalCall 0
              tool_use_response_1
              [mkMessage user (ContentStr "test query")] SYSTEM_PROMPT _ []
              0 "search_course_content" [("query", PyStr "first search")]
              (mkExn "Exception" "Tool failed") [] H))).
Defined.

Lemma handler_single_final_request_witness :
  no_tool_raise
    (snd (run (_handle_tool_execution example_generator RoundFinalCall 0
                 tool_use_response_1
                 (mkParamsDict
                    (Some [mkMessage user (ContentStr "test query")])
                    (Some SYSTEM_PROMPT))
                 example_tool_manager)))
  /\ exists outs fo,
       List.length outs
       = List.length (tool_uses (response_content tool_use_response_1))
       /\ snd (run (_handle_tool_execution example_generator RoundFinalCall 0
                      tool_use_response_1
                      (mkParamsDict
                         (Some [mkMessage user (ContentStr "test query")])
                         (Some SYSTEM_PROMPT))
                      example_tool_manager))
          = map (ok_event 0)
              (combine (tool_uses (response_content tool_use_response_1))
                 outs)
            ++ [EvCreate RoundFinalCall 0
                  (mkApiParams
                     (with_system (self_base_params example_generator)
                        SYSTEM_PROMPT)
                     ([mkMessage user (ContentStr "test query")]
                      ++ appended_messages tool_use_response_1 outs)
                     None None)
                  fo]
       /\ fst (run (_handle_tool_execution example_generator RoundFinalCall 0
                      tool_use_response_1
                      (mkParamsDict
                         (Some [mkMessage user (ContentStr "test query")])
                         (Some SYSTEM_PROMPT))
                      example_tool_manager))
          = llm_text fo.
Proof.
  assert (H : no_tool_raise
                (snd (run (_handle_tool_execution example_generator
                             RoundFinalCall 0 tool_use_response_1
                             (mkParamsDict
                                (Some [mkMessage user
                                         (ContentStr "test query")])
                                (Some SYSTEM_PROMPT))
                             example_tool_manager))))
    by (vm_compute; repeat constructor).
  split; [exact H|].
  exact (handler_single_final_request example_generator RoundFinalCall 0
           tool_use_response_1 [mkMessage user (ContentStr "test query")]
           SYSTEM_PROMPT _ H).
Defined.

Lemma handle_tool_blocks_no_request tm rc blocks :
  forall acc tr0,
    create_sites (snd (handle_tool_blocks tm rc blocks acc tr0))
    = create_sites tr0
    /\ fst (handle_tool_blocks tm rc blocks acc tr0) <> OutOfFuel.
Proof.
  induction blocks as [|b blocks IH]; intros acc tr0.
  - split; [reflexivity | discriminate].
  - destruct b as [t | id name input]; cbn [handle_tool_blocks].
    + apply IH.
    + unfold bind, execute_tool. destruct tm as [f|].
      * destruct (f tr0 name input) as [s | e].
        -- destruct (IH (acc ++ [ok_result id s])
                       (tr0 ++ [EvExecuteTool rc name input (ToolOk s)]))
             as [Hs Hf].
           rewrite create_sites_app in Hs. cbn in Hs.
           rewrite app_nil_r in Hs. auto.
        -- cbn. rewrite create_sites_app. cbn. rewrite app_nil_r.
           split; [reflexivity | discriminate].
      * cbn. split; [reflexivity | discriminate].
Qed.

(** X12: [_handle_tool_execution] reads ["messages"] before anything else
    and ["system"] only after the tools have run: without ["messages"] it
    raises [KeyError] at once; without ["system"] it never makes a request
    and always raises, and when no tool call failed the tools have all been
    called and the exception is the [KeyError] of ["system"]. *)
Theorem handler_missing_keys self site rc r tm :
  (forall osys,
     run (_handle_tool_execution self site rc r (mkParamsDict None osys) tm)
     = (Raise (KeyError "messages"), []))
  /\ (forall oms,
        llm_calls
          (snd (run (_handle_tool_execution self site rc r
                       (mkParamsDict oms None) tm)))
        = 0%nat
        /\ exists e,
             fst (run (_handle_tool_execution self site rc r
                         (mkParamsDict oms None) tm))
             = Raise e)
  /\ (forall ms f,
        tm = Some f ->
        no_tool_raise
          (snd (run (_handle_tool_execution self site rc r
                       (mkParamsDict (Some ms) None) tm))) ->
        fst (run (_handle_tool_execution self site rc r
                    (mkParamsDict (Some ms) None) tm))
        = Raise (KeyError "system")
        /\ tool_calls
             (snd (run (_handle_tool_execution self site rc r
                          (mkParamsDict (Some ms) None) tm)))
           = List.length (tool_uses (response_content r))).
Proof.
  split; [reflexivity|]. split.
  - intros [ms|]; [|split; [reflexivity | eexists; reflexivity]].
    unfold run, _handle_tool_execution, bind, raise, llm_calls.
    cbn [dict_messages dict_system].
    destruct (handle_tool_blocks_no_request tm rc (response_content r) [] [])
      as [Hs Hf].
    destruct (handle_tool_blocks tm rc (response_content r) [] [])
      as [[res | e | ] tr]; cbn [fst snd] in *.
    + rewrite Hs. split; [reflexivity | eexists; reflexivity].
    + rewrite Hs. split; [reflexivity | eexists; reflexivity].
    + contradiction.
  - intros ms f -> Hclean.
    unfold run, _handle_tool_execution, bind, raise in *.
    cbn [dict_messages dict_system] in *.
    destruct (handle_tool_blocks_shape f rc (response_content r) [] [])
      as [(outs & Hlen & Hrun)
         | (done & id & name & input & rest & outs & e & Huses & Hlen
            & Hrun)];
      rewrite Hrun in *; cbn [app fst snd] in *.
    + split; [reflexivity|]. unfold tool_calls.
      rewrite <- Hlen. clear Hrun Hclean.
      assert (Hall : forall l, filter is_dispatch (map (ok_event rc) l)
                               = map (ok_event rc) l).
      { induction l as [|[[[i n] a] o] l IH]; cbn; [|rewrite IH];
          reflexivity. }
      rewrite Hall, length_map, length_combine. lia.
    + exfalso. eapply no_tool_raise_absurd;
        [exact Hclean | reflexivity | reflexivity].
Qed.

Lemma tool_loops_agree tm rc blocks :
  forall acc tr0 res tr1,
    execute_tool_blocks tm rc blocks acc tr0 = (Ok (true, res), tr1) ->
    handle_tool_blocks tm rc blocks acc tr0 = (Ok res, tr1).
Proof.
  induction blocks as [|b blocks IH]; intros acc tr0 res tr1.
  - cbn. unfold ret. intros H. now inversion H.
  - destruct b as [t | id name input];
      cbn [execute_tool_blocks handle_tool_blocks].
    + apply IH.
    + unfold bind, try_except, execute_tool, ret, raise.
      destruct tm as [f|]; [|cbn; discriminate].
      destruct (f tr0 name input) as [s | e]; cbn [fst snd].
      * apply IH.
      * discriminate.
Qed.

(** X13: when the tools of a response all succeed, [_handle_tool_execution],
    given the request of the round as [base_params], does from the same
    point what a round does after its response when it is not to continue
    (lines 159 and 167-172): the same tool calls, the same request without
    tools, the same answer. *)
Theorem handler_agrees_with_round self site r st sys tr0 st' tr1 :
  base_params st = with_system (self_base_params self) sys ->
  _execute_tools_and_update_state r st tr0 = (Ok (true, st'), tr1) ->
  _handle_tool_execution self site (round_count st) r
    (params_dict_of (round_params st)) (tool_manager st) tr0
  = bind (messages_create self site (round_count st') (final_params st'))
      content0_text tr1.
Proof.
  intros Hbp Hrun.
  unfold _execute_tools_and_update_state, bind in Hrun.
  cbn [tool_manager round_count set_messages messages] in Hrun.
  destruct (execute_tool_blocks (tool_manager st) (round_count st)
              (response_content r) [] tr0) as [[[ok res] | e | ] tr] eqn:Hloop;
    try discriminate Hrun.
  cbn [fst snd] in Hrun. destruct ok; [|discriminate Hrun].
  apply tool_loops_agree in Hloop.
  unfold _handle_tool_execution, params_dict_of, bind.
  rewrite round_params_messages, round_params_base, Hbp.
  cbn [dict_messages dict_system param_system with_system].
  rewrite Hloop.
  destruct (nonempty res); unfold ret in Hrun; inversion Hrun; subst;
    unfold final_params; cbn [base_params messages round_count set_messages];
    rewrite Hbp; reflexivity.
Qed.

Lemma handler_agrees_with_round_witness :
  let st :=
    initial_state example_generator
      "Complex query requiring multiple searches" None example_tools
      example_tool_manager 2 in
  let st' :=
    add_results (add_assistant st tool_use_response_1)
      [ok_result "tool_1" "Result 1"] in
  let tr1 :=
    [EvExecuteTool 0 "search_course_content" [("query", PyStr "first search")]
       (ToolOk "Result 1")] in
  (base_params st
   = with_system (self_base_params example_generator) (system_content None)
   /\ _execute_tools_and_update_state tool_use_response_1 st []
      = (Ok (true, st'), tr1))
  /\ _handle_tool_execution example_generator RoundFinalCall (round_count st)
       tool_use_response_1 (params_dict_of (round_params st))
       (tool_manager st) []
     = bind (messages_create example_generator RoundFinalCall
               (round_count st') (final_params st'))
         content0_text tr1.
Proof.
  cbv zeta.
  set (st := initial_state example_generator
               "Complex query requiring multiple searches" None example_tools
               example_tool_manager 2).
  set (st' := add_results (add_assistant st tool_use_response_1)
                [ok_result "tool_1" "Result 1"]).
  assert (H1 : base_params st
               = with_system (self_base_params example_generator)
                   (system_content None)) by reflexivity.
  assert (H2 : _execute_tools_and_update_state tool_use_response_1 st []
               = (Ok (true, st'),
                  [EvExecuteTool 0 "search_course_content"
                     [("query", PyStr "first search")] (ToolOk "Result 1")]))
    by (vm_compute; reflexivity).
  split; [split; assumption|].
  exact (handler_agrees_with_round example_generator RoundFinalCall
           tool_use_response_1 st (system_content None) [] st' _ H1 H2).
Defined.
